(** * Finite-fault geometry of BEAT ([src/ffo/fault.py])

    A shallow embedding of [FaultOrdering], [FaultGeometry],
    [positions2idxs] and [discretize_sources], and the properties of the
    patch layout, the index maps, the registration of extended sources and
    the hand-over to the rupture-time solver.

    Conventions of the embedding.
    - Python integers are [Z]; [int16] array entries are [Z] wrapped by
      [wrap16].
    - Python floats are idealised as exact rationals [Q]; a division by
      zero, which numpy answers with a non-finite value, is [None].  The
      two agree where no quotient comes within rounding error of a tie
      of [round], as at the centre of a patch.
    - A raised exception is [inl e]; a numpy array of rank two is a flat
      buffer in C order with its shape.
    - [copy.deepcopy] is the identity on immutable values. *)

From Stdlib Require Import ZArith QArith Qround Lia.
From stdpp Require Import gmap strings list fin_maps pretty.

Local Open Scope Z_scope.

(** ** Exceptions *)

(** The messages of the exceptions raised in [fault.py], and of the numpy
    and Python errors its calls can raise. *)
Inductive msg :=
| DatatypeNotIncluded          (* 'Datatype "%s" not included in FaultGeometry' *)
| ComponentNotIncluded         (* 'Component not included in FaultGeometry' *)
| SubfaultNotDefined           (* 'Subfault with index %i not defined!' *)
| SetupDoesNotMatch            (* 'Setup does not match fault ordering!' *)
| SubfaultAlreadySpecified     (* 'Subfault already specified in geometry!' *)
| RequestedSubfaultNotDefined  (* 'Requested subfault not defined!' *)
| BackendNotSupported          (* 'Backend not supported! Options: %s' *)
| SquarePatchesOnly            (* 'Seismic kinematic fault optimization does only support square patches (yet)! ...' *)
| OneMainFaultOnly             (* 'Seismic kinematic fault optimization does only support one main fault ...' *)
| CannotReshape                (* numpy: 'cannot reshape array of size %i into shape %s' *)
| OneUnknownDimension.         (* numpy: 'can only specify one unknown dimension' *)

Inductive exn :=
| TypeError (m : msg)
| ValueError (m : msg)
| FaultGeometryError (m : msg)
| NotImplementedError (m : msg)
| IndexError
| KeyError
| ArithmeticError    (* ZeroDivisionError or OverflowError *)
| InvalidSlowness    (* spec 4.6: the solver, on a slowness that is not positive *)
| InvalidNucleation. (* spec 4.6: the solver, on a nucleation index off the grid *)

Definition result (A : Type) : Type := exn + A.

Definition rbind {A B} (r : result A) (k : A -> result B) : result B :=
  match r with
  | inl e => inl e
  | inr a => k a
  end.

Notation "'let*' x ':=' r 'in' k" := (rbind r (fun x => k))
  (at level 10, x pattern, r at level 100, k at level 200).

(** ** Integers of 16 bits, sequences and arrays *)

(** The value an [int16] holds after a store of [z]: [z] modulo [2^16], in
    [-32768 .. 32767]. *)
Definition wrap16 (z : Z) : Z := (z + 32768) mod 65536 - 32768.

(** [seq[i]] on a Python sequence of length [n]: a negative index counts
    from the end, anything outside [-n .. n-1] raises [IndexError]. *)
Definition py_index (n i : Z) : result Z :=
  if (0 <=? i) && (i <? n) then inr i
  else if (- n <=? i) && (i <? 0) then inr (i + n)
  else inl IndexError.

Definition py_getitem {A} (l : list A) (i : Z) : result A :=
  let* j := py_index (Z.of_nat (length l)) i in
  match l !! Z.to_nat j with
  | Some a => inr a
  | None => inl IndexError
  end.

(** A numpy array of rank two: the shape [(rows, columns)] and the buffer
    in C (row-major) order. *)
Record ndarray (A : Type) := mk_ndarray {
  nd_shape : Z * Z;
  nd_data : list A
}.
Arguments mk_ndarray {A} _ _.
Arguments nd_shape {A} _.
Arguments nd_data {A} _.

(** [a[i, j]] *)
Definition nd_getitem {A} (a : ndarray A) (i j : Z) : result A :=
  let '(rows, cols) := nd_shape a in
  let* i' := py_index rows i in
  let* j' := py_index cols j in
  match nd_data a !! Z.to_nat (i' * cols + j') with
  | Some x => inr x
  | None => inl IndexError
  end.

(** [buf.reshape(shp)] for a shape of two entries, one of which may be
    negative: numpy takes a negative entry as the unknown dimension. *)
Definition reshape {A} (buf : list A) (shp : Z * Z) : result (ndarray A) :=
  let '(a, b) := shp in
  let size := Z.of_nat (length buf) in
  if (a <? 0) && (b <? 0) then inl (ValueError OneUnknownDimension)
  else if a <? 0 then
    if (b =? 0) || negb (size mod b =? 0) then inl (ValueError CannotReshape)
    else inr (mk_ndarray (size / b, b) buf)
  else if b <? 0 then
    if (a =? 0) || negb (size mod a =? 0) then inl (ValueError CannotReshape)
    else inr (mk_ndarray (a, size / a) buf)
  else if a * b =? size then inr (mk_ndarray (a, b) buf)
  else inl (ValueError CannotReshape).

(** [num.arange(n, dtype='int16')]: [max 0 n] entries, the entry at
    position [i] is [i] stored in an [int16]. *)
Definition arange_int16 (n : Z) : list Z :=
  (fun i : nat => wrap16 (Z.of_nat i)) <$> seq 0 (Z.to_nat n).

(** ** PatchMap and FaultOrdering *)

Module PatchMap.
(** [namedtuple('PatchMap', 'count, slc, shp, npatches, indexmap')];
    [slc] is the pair (start, stop) of the slice. *)
Record t := mk {
  count : Z;
  slc : Z * Z;
  shp : Z * Z;
  npatches : Z;
  indexmap : ndarray Z
}.
End PatchMap.

Record FaultOrdering := mk_FaultOrdering {
  patch_size_dip : Q;
  patch_size_strike : Q;
  vmap : list PatchMap.t;
  smap : list (ndarray Z);
  npatches : Z
}.

(** The loop of [FaultOrdering.__init__] over [zip(npls, npws)], with the
    running [dim], [count], [vmap] and [smap]. *)
Fixpoint FaultOrdering_loop (l : list (Z * Z)) (dim count : Z)
    (vm : list PatchMap.t) (sm : list (ndarray Z))
    : result (Z * list PatchMap.t * list (ndarray Z)) :=
  match l with
  | [] => inr (dim, vm, sm)
  | (npl, npw) :: l' =>
      let npatches := npl * npw in
      let slc := (dim, dim + npatches) in
      let shp := (npw, npl) in
      let* indexes := reshape (arange_int16 npatches) shp in
      FaultOrdering_loop l' (dim + npatches) (count + 1)
        (vm ++ [PatchMap.mk count slc shp npatches indexes])
        (sm ++ [indexes])
  end.

Definition FaultOrdering_init (npls npws : list Z)
    (patch_size_strike patch_size_dip : Q) : result FaultOrdering :=
  let* (dim, vm, sm) := FaultOrdering_loop (zip npls npws) 0 0 [] [] in
  inr (mk_FaultOrdering patch_size_dip patch_size_strike vm sm dim).

(** ** Floats *)

(** [a / b] on floats: [None] stands for the non-finite value numpy
    yields when [b] is zero. *)
Definition fdiv (a b : Q) : option Q :=
  if Qeq_bool b 0 then None else Some (a / b)%Q.

(** [numpy.round] on a finite value: the nearest integer, a tie going to
    the even neighbour. *)
Definition np_round (q : Q) : Z :=
  let f := Qfloor q in
  match (q - inject_Z f ?= 1 # 2)%Q with
  | Lt => f
  | Gt => f + 1
  | Eq => if Z.even f then f else f + 1
  end.

(** [x.astype('int16')] on a rounded value; the cast of a non-finite
    value is left to the platform and stays [None]. *)
Definition astype_int16 (x : option Z) : option Z := wrap16 <$> x.

Definition km : Q := 1000.

(** ** Sources *)

Module RectangularSource.
(** The attributes of a rectangular source that [fault.py] reads or
    updates. *)
Record t := mk {
  length : Q;
  width : Q;
  rake : Q;
  slip : Q;
  opening : Q
}.
End RectangularSource.
Abbreviation Source := RectangularSource.t.

(** An entry of [slip_directions]: the keyword arguments handed to
    [source.update]. *)
Record ParamMod := mk_ParamMod {
  pm_slip : Q;
  pm_rake : Q;
  pm_opening : option Q
}.

Definition slip_directions (var : string) : result ParamMod :=
  if String.eqb var "uparr" then inr (mk_ParamMod 1 0 None)
  else if String.eqb var "uperp" then inr (mk_ParamMod 1 (-90) None)
  else if String.eqb var "utensile" then inr (mk_ParamMod 0 0 (Some 1%Q))
  else inl KeyError.

(** [s.update] with the entries of [param_mod] as keyword arguments *)
Definition update (s : Source) (p : ParamMod) : Source :=
  RectangularSource.mk
    (RectangularSource.length s) (RectangularSource.width s)
    (pm_rake p) (pm_slip p)
    (match pm_opening p with
     | Some o => o
     | None => RectangularSource.opening s
     end).

(** ** FaultGeometry *)

Record FaultGeometry := mk_FaultGeometry {
  datatypes : list string;
  components : list string;
  _ext_sources : gmap string Source;
  ordering : FaultOrdering
}.

Definition FaultGeometry_init (datatypes components : list string)
    (ordering : FaultOrdering) : FaultGeometry :=
  mk_FaultGeometry datatypes components ∅ ordering.

(** [self._ext_sources[key] = source] *)
Definition store (fg : FaultGeometry) (key : string) (source : Source)
    : FaultGeometry :=
  mk_FaultGeometry (datatypes fg) (components fg)
    (<[key := source]> (_ext_sources fg)) (ordering fg).

Definition nsubfaults (fg : FaultGeometry) : Z :=
  Z.of_nat (length (vmap (ordering fg))).

Definition FaultGeometry_npatches (fg : FaultGeometry) : Z :=
  npatches (ordering fg).

Definition _check_datatype (fg : FaultGeometry) (datatype : string)
    : result unit :=
  if bool_decide (datatype ∈ datatypes fg) then inr tt
  else inl (TypeError DatatypeNotIncluded).

Definition _check_component (fg : FaultGeometry) (component : string)
    : result unit :=
  if bool_decide (component ∈ components fg) then inr tt
  else inl (TypeError ComponentNotIncluded).

Definition _check_index (fg : FaultGeometry) (index : Z) : result unit :=
  if index >? nsubfaults fg - 1 then inl (TypeError SubfaultNotDefined)
  else inr tt.

Definition get_subfault_key (fg : FaultGeometry) (index : Z)
    (datatype component : option string) : result string :=
  let* datatype :=
    match datatype with
    | Some d => let* _ := _check_datatype fg d in inr d
    | None => py_getitem (datatypes fg) 0
    end in
  let* component :=
    match component with
    | Some c => let* _ := _check_component fg c in inr c
    | None => py_getitem (components fg) 0
    end in
  let* _ := _check_index fg index in
  inr (datatype +:+ "_" +:+ component +:+ "_" +:+ pretty index).

(** The loop of [setup_subfaults] over [enumerate(ext_sources)], from
    position [i] on.  The store is updated in place: the geometry comes
    back also when the loop raises. *)
Fixpoint setup_subfaults_loop (fg : FaultGeometry)
    (datatype component : string) (i : Z) (ext_sources : list Source)
    (replace : bool) : FaultGeometry * result unit :=
  match ext_sources with
  | [] => (fg, inr tt)
  | source :: rest =>
      match get_subfault_key fg i (Some datatype) (Some component) with
      | inl e => (fg, inl e)
      | inr source_key =>
          if bool_decide (_ext_sources fg !! source_key = None) || replace
          then setup_subfaults_loop (store fg source_key source)
                 datatype component (i + 1) rest replace
          else (fg, inl (FaultGeometryError SubfaultAlreadySpecified))
      end
  end.

Definition setup_subfaults (fg : FaultGeometry)
    (datatype component : string) (ext_sources : list Source)
    (replace : bool) : FaultGeometry * result unit :=
  match _check_datatype fg datatype with
  | inl e => (fg, inl e)
  | inr _ =>
  match _check_component fg component with
  | inl e => (fg, inl e)
  | inr _ =>
      if negb (Z.of_nat (length ext_sources) =? nsubfaults fg)
      then (fg, inl (FaultGeometryError SetupDoesNotMatch))
      else setup_subfaults_loop fg datatype component 0 ext_sources replace
  end end.

Definition _assign_datatype (fg : FaultGeometry) (datatype : option string)
    : result string :=
  match datatype with
  | None => py_getitem (datatypes fg) 0
  | Some d => inr d
  end.

Definition _assign_component (fg : FaultGeometry)
    (component : option string) : result string :=
  match component with
  | None => py_getitem (components fg) 0
  | Some c => inr c
  end.

Definition get_subfault (fg : FaultGeometry) (index : Z)
    (datatype component : option string) : result Source :=
  let* datatype := _assign_datatype fg datatype in
  let* component := _assign_component fg component in
  let* source_key :=
    get_subfault_key fg index (Some datatype) (Some component) in
  match _ext_sources fg !! source_key with
  | Some s => inr s
  | None => inl (FaultGeometryError RequestedSubfaultNotDefined)
  end.

Definition get_patch_indexes (fg : FaultGeometry) (index : Z)
    : result (Z * Z) :=
  let* _ := _check_index fg index in
  let* pm := py_getitem (vmap (ordering fg)) index in
  inr (PatchMap.slc pm).

Definition get_subfault_discretization (fg : FaultGeometry) (index : Z)
    : result (Z * Z) :=
  let* _ := _check_index fg index in
  let* pm := py_getitem (vmap (ordering fg)) index in
  inr (PatchMap.shp pm).

Definition patchmap (fg : FaultGeometry) (index dipidx strikeidx : Z)
    : result Z :=
  let* pm := py_getitem (vmap (ordering fg)) index in
  nd_getitem (PatchMap.indexmap pm) dipidx strikeidx.

(** ** Code that calls into modules outside [fault.py] *)

(** The arguments of a call of [fast_sweep.get_rupture_times_numpy]. *)
Record SweepArgs := mk_SweepArgs {
  Slowness : ndarray (option Q);
  patch_size : Q;
  n_patch_strike : Z;
  n_patch_dip : Z;
  nuc_x : Z;
  nuc_y : Z
}.

(** A point of the solution space, as [point2starttimes] reads it. *)
Record Point := mk_Point {
  nucleation_dip : Q;
  nucleation_strike : Q;
  velocities : list Q
}.

Section External.

(** [backends] of [ffo/base.py]: the rounding function of each
    backend, by name. *)
Variable backends : string -> option (Q -> Z).

(** [beat.fast_sweeping.fast_sweep.get_rupture_times_numpy] *)
Variable get_rupture_times_numpy : SweepArgs -> result (ndarray Q).

(** [RectangularSource.extent_source(extension_width, extension_length,
    patch_width, patch_length)] and
    [RectangularSource.get_n_patches(patch_size, dimension)] *)
Variable extent_source : Source -> Q -> Q -> Q -> Q -> result Source.
Variable get_n_patches : Source -> Q -> string -> result Z.

Definition positions2idxs (positions cell_size : Q) (backend : string)
    : result (option Z) :=
  match backends backend with
  | None => inl (NotImplementedError BackendNotSupported)
  | Some round =>
      inr (astype_int16
             (round <$> fdiv (positions - cell_size / 2) cell_size))
  end.

Definition fault_locations2idxs (fg : FaultGeometry)
    (positions_dip positions_strike : Q) (backend : string)
    : result (option Z * option Z) :=
  let* dipidx :=
    positions2idxs positions_dip (patch_size_dip (ordering fg)) backend in
  let* strikeidx :=
    positions2idxs positions_strike (patch_size_strike (ordering fg))
      backend in
  inr (dipidx, strikeidx).

(** The arguments [get_subfault_starttimes] builds for the solver. *)
Definition starttimes_call (fg : FaultGeometry) (index : Z)
    (rupture_velocities : list Q) (nuc_dip_idx nuc_strike_idx : Z)
    : result SweepArgs :=
  let* (npw, npl) := get_subfault_discretization fg index in
  let* v := reshape rupture_velocities (npw, npl) in
  let slownesses :=
    mk_ndarray (nd_shape v) (fdiv 1 <$> nd_data v) in
  inr (mk_SweepArgs slownesses (patch_size_dip (ordering fg))
         npl npw nuc_strike_idx nuc_dip_idx).

Definition get_subfault_starttimes (fg : FaultGeometry) (index : Z)
    (rupture_velocities : list Q) (nuc_dip_idx nuc_strike_idx : Z)
    : result (ndarray Q) :=
  let* args :=
    starttimes_call fg index rupture_velocities nuc_dip_idx
      nuc_strike_idx in
  get_rupture_times_numpy args.

(** [point2starttimes]; [None] when a nucleation index is the cast of
    a non-finite value. *)
Definition point2starttimes (fg : FaultGeometry) (point : Point)
    (index : Z) : result (option (ndarray Q)) :=
  let* (nuc_dip_idx, nuc_strike_idx) :=
    fault_locations2idxs fg (nucleation_dip point)
      (nucleation_strike point) "numpy" in
  match nuc_dip_idx, nuc_strike_idx with
  | Some d, Some s =>
      let* t := get_subfault_starttimes fg index (velocities point) d s in
      inr (Some t)
  | _, _ => inr None
  end.

(** [int(num.ceil(a / b))] *)
Definition ceil_div (a b : Q) : result Z :=
  match fdiv a b with
  | Some q => inr (Qceiling q)
  | None => inl ArithmeticError
  end.

Section Discretize.

Variable sources : list Source.
Variables extension_width extension_length : Q.
Variables patch_width_m patch_length_m : Q.

(** The first loop of [discretize_sources]: the patch numbers of the
    extended planes. *)
Fixpoint count_patches (l : list Source) : result (list Z * list Z) :=
  match l with
  | [] => inr ([], [])
  | source :: rest =>
      let s := source in
      let* ext_source :=
        extent_source s extension_width extension_length
          patch_width_m patch_length_m in
      let* npl :=
        ceil_div (RectangularSource.length ext_source) patch_length_m in
      let* npw :=
        ceil_div (RectangularSource.width ext_source) patch_width_m in
      let* (npls, npws) := count_patches rest in
      inr (npl :: npls, npw :: npws)
  end.

(** The loop over the sources for one slip component.  [param_mod]
    is created before the loop and updated in it, so its rake is
    carried from one source to the next.  The patch numbers asked
    from [get_n_patches] go to lists that are not read again. *)
Fixpoint extend_sources (l : list Source) (param_mod : ParamMod)
    : result (list Source) :=
  match l with
  | [] => inr []
  | source :: rest =>
      let s := source in
      let param_mod :=
        mk_ParamMod (pm_slip param_mod)
          (pm_rake param_mod + RectangularSource.rake s)%Q
          (pm_opening param_mod) in
      let s := update s param_mod in
      let* ext_source :=
        extent_source s extension_width extension_length
          patch_width_m patch_length_m in
      let* _ := get_n_patches ext_source patch_length_m "length" in
      let* _ := get_n_patches ext_source patch_width_m "width" in
      let* ext_sources := extend_sources rest param_mod in
      inr (ext_source :: ext_sources)
  end.

(** The loop over [varnames] for one datatype. *)
Fixpoint setup_components (fault : FaultGeometry) (datatype : string)
    (varnames : list string) : result FaultGeometry :=
  match varnames with
  | [] => inr fault
  | var :: rest =>
      let* param_mod := slip_directions var in
      let* ext_sources := extend_sources sources param_mod in
      match setup_subfaults fault datatype var ext_sources false with
      | (_, inl e) => inl e
      | (fault, inr _) => setup_components fault datatype rest
      end
  end.

(** The loop over [datatypes]. *)
Fixpoint setup_datatypes (fault : FaultGeometry)
    (datatypes varnames : list string) : result FaultGeometry :=
  match datatypes with
  | [] => inr fault
  | datatype :: rest =>
      let* fault := setup_components fault datatype varnames in
      setup_datatypes fault rest varnames
  end.

End Discretize.

Definition discretize_sources (sources : list Source)
    (extension_width extension_length patch_width patch_length : Q)
    (datatypes varnames : list string) : result FaultGeometry :=
  if bool_decide ("seismic" ∈ datatypes)
     && negb (Qeq_bool patch_length patch_width)
  then inl (ValueError SquarePatchesOnly)
  else
  let nsources := Z.of_nat (length sources) in
  if bool_decide ("seismic" ∈ datatypes) && (nsources >? 1)
  then inl (ValueError OneMainFaultOnly)
  else
  let patch_length_m := (patch_length * km)%Q in
  let patch_width_m := (patch_width * km)%Q in
  let* (npls, npws) :=
    count_patches extension_width extension_length
      patch_width_m patch_length_m sources in
  let* ordering :=
    FaultOrdering_init npls npws patch_length patch_width in
  let fault := FaultGeometry_init datatypes varnames ordering in
  setup_datatypes sources extension_width extension_length
    patch_width_m patch_length_m fault datatypes varnames.

End External.

(** ** Patches of the subfaults *)

Section Patches.

(** The patches a source yields, and [RectangularSource.patches(nl, nw,
    datatype)], which is outside [fault.py]. *)
Variable Patch : Type.
Variable patches : Source -> Z -> Z -> string -> result (list Patch).

Definition get_subfault_patches (fg : FaultGeometry) (index : Z)
    (datatype component : option string) : result (list Patch) :=
  let* _ := _check_index fg index in
  let* datatype := _assign_datatype fg datatype in
  let* component := _assign_component fg component in
  let* subfault :=
    get_subfault fg index (Some datatype) (Some component) in
  let* (npw, npl) := get_subfault_discretization fg index in
  patches subfault npl npw datatype.

(** The loop of [get_all_patches] over the subfault indices, with the
    list [patches] collected so far. *)
Fixpoint get_all_patches_loop (fg : FaultGeometry)
    (datatype component : string) (indexes : list Z) (acc : list Patch)
    : result (list Patch) :=
  match indexes with
  | [] => inr acc
  | i :: rest =>
      let* ps :=
        get_subfault_patches fg i (Some datatype) (Some component) in
      get_all_patches_loop fg datatype component rest (acc ++ ps)
  end.

(** [range(self.nsubfaults)] *)
Definition subfault_range (fg : FaultGeometry) : list Z :=
  Z.of_nat <$> seq 0 (Z.to_nat (nsubfaults fg)).

Definition get_all_patches (fg : FaultGeometry)
    (datatype component : option string) : result (list Patch) :=
  let* datatype := _assign_datatype fg datatype in
  let* component := _assign_component fg component in
  get_all_patches_loop fg datatype component (subfault_range fg) [].

End Patches.

(** ** Functions of the statements *)

Definition sumZ (l : list Z) : Z := foldr Z.add 0 l.

(** [n_strike * n_dip] of each subfault. *)
Definition patch_counts (l : list (Z * Z)) : list Z :=
  (fun p : Z * Z => p.1 * p.2) <$> l.

(** [k] lies in the half-open range of a slice. *)
Definition in_slice (k : Z) (s : Z * Z) : Prop := s.1 <= k < s.2.

(** The PatchMaps the loop of [FaultOrdering.__init__] appends when no
    reshape fails. *)
Fixpoint layout (l : list (Z * Z)) (dim count : Z) : list PatchMap.t :=
  match l with
  | [] => []
  | (npl, npw) :: l' =>
      PatchMap.mk count (dim, dim + npl * npw) (npw, npl) (npl * npw)
        (mk_ndarray (npw, npl) (arange_int16 (npl * npw)))
      :: layout l' (dim + npl * npw) (count + 1)
  end.

(** The ordering [FaultOrdering.__init__] returns when no reshape
    fails. *)
Definition laid_out (npls npws : list Z) (pss psd : Q) : FaultOrdering :=
  mk_FaultOrdering psd pss (layout (zip npls npws) 0 0)
    (PatchMap.indexmap <$> layout (zip npls npws) 0 0)
    (sumZ (patch_counts (zip npls npws))).

(** The solver takes one spacing, [patch_size], for both axes of the
    grid. *)
Definition spacing_dip (a : SweepArgs) : Q := patch_size a.
Definition spacing_strike (a : SweepArgs) : Q := patch_size a.

(** The key of [_ext_sources] for a subfault. *)
Definition subfault_key (datatype component : string) (index : Z) : string :=
  datatype +:+ "_" +:+ component +:+ "_" +:+ pretty index.

Definition sumQ (l : list Q) : Q := foldr Qplus 0%Q l.

(** The geometries with the datatypes, components and ordering of
    [fg]. *)
Definition same_frame (fg fg' : FaultGeometry) : Prop :=
  datatypes fg' = datatypes fg /\ components fg' = components fg /\
  ordering fg' = ordering fg.

(** [l[a:b]] for a slice [(a, b)] with [0 <= a <= b]. *)
Definition py_slice {A} (l : list A) (s : Z * Z) : list A :=
  take (Z.to_nat (s.2 - s.1)) (drop (Z.to_nat s.1) l).

(** The string holds no underscore. *)
Fixpoint underscore_free (s : string) : bool :=
  match s with
  | EmptyString => true
  | String c s' => negb (String.eqb (String c "") "_") && underscore_free s'
  end.

(** The keys of [slip_directions]. *)
Definition slip_direction_names : list string :=
  ["uparr"; "uperp"; "utensile"].

(** The key of subfault 0 of a datatype and a component is in the
    store. *)
Definition registered (fg : FaultGeometry) (datatype component : string)
    : Prop :=
  is_Some (_ext_sources fg !! subfault_key datatype component 0).

(** Every key of the store is the key of a datatype of [dts], a
    component of [varnames] and a subfault index of the geometry. *)
Definition keys_within (fg : FaultGeometry) (dts varnames : list string)
    : Prop :=
  forall key s, _ext_sources fg !! key = Some s ->
    exists dt var (j : Z),
      dt ∈ dts /\ var ∈ varnames /\ 0 <= j < nsubfaults fg /\
      key = subfault_key dt var j.

(** ** The checks of the solver *)




(** ** Instances of the external functions, for the examples *)

(** A table of backends with numpy alone. *)
Definition numpy_backend (backend : string) : option (Q -> Z) :=
  if String.eqb backend "numpy" then Some np_round else None.

(** A solver that checks nothing and answers a grid of zeros. *)
Definition unchecked_solver (a : SweepArgs) : result (ndarray Q) :=
  inr (mk_ndarray (nd_shape (Slowness a))
         ((fun _ => 0%Q) <$> nd_data (Slowness a))).

(** Modelled from the spec: [RectangularSource.extent_source], which is
    not among the sources.  The plane is padded by the extension
    fractions on both sides and rounded up to whole patches; nothing
    else changes. *)
Definition extent_source_padded (s : Source)
    (extension_width extension_length patch_width patch_length : Q)
    : result Source :=
  let* nl :=
    ceil_div (RectangularSource.length s
              + 2 * RectangularSource.length s * extension_length)%Q
      patch_length in
  let* nw :=
    ceil_div (RectangularSource.width s
              + 2 * RectangularSource.width s * extension_width)%Q
      patch_width in
  inr (RectangularSource.mk (inject_Z nl * patch_length)%Q
         (inject_Z nw * patch_width)%Q
         (RectangularSource.rake s) (RectangularSource.slip s)
         (RectangularSource.opening s)).

(** Modelled from the spec: [RectangularSource.get_n_patches], which is
    not among the sources: the extent of the plane in the dimension over
    the patch size, rounded up. *)
Definition get_n_patches_ceil (s : Source) (patch_size : Q)
    (dimension : string) : result Z :=
  if String.eqb dimension "length"
  then ceil_div (RectangularSource.length s) patch_size
  else ceil_div (RectangularSource.width s) patch_size.

(** Two planes with rakes 10 and 20, and the geometries of the
    examples. *)
Definition plane_a : Source := RectangularSource.mk 20000 10000 10 0 0.
Definition plane_b : Source := RectangularSource.mk 30000 10000 20 0 0.

Definition geometry (npls npws : list Z) (pss psd : Q) : FaultGeometry :=
  FaultGeometry_init ["geodetic"] ["uparr"] (laid_out npls npws pss psd).

(** A source yields [nl * nw] copies of itself as its patches. *)
Definition copies (s : Source) (nl nw : Z) (datatype : string)
    : result (list Source) :=
  inr (replicate (Z.to_nat (nl * nw)) s).

(** * Properties *)

(** Closes [Forall (fun n => 0 <= n) l] for a list of numerals. *)
Ltac all_nonneg := repeat constructor; lia.

(** Runs one step of a computation in [result] that is known to return,
    as the hypothesis [H] says: the step has not raised, its value is [x]
    and [E] records it. *)
Tactic Notation "returned" hyp(H) "as" simple_intropattern(x) ident(E) :=
  match type of H with
  | context [rbind ?r _] =>
      destruct r as [?|x] eqn:E; [discriminate H|]; cbn [rbind] in H
  end.

(** ** The layout of the flat parameter vector *)

Lemma length_arange_int16 n : length (arange_int16 n) = Z.to_nat n.
Proof. unfold arange_int16. by rewrite length_fmap, length_seq. Qed.

Lemma lookup_arange_int16 n (k : nat) :
  (k < Z.to_nat n)%nat -> arange_int16 n !! k = Some (wrap16 (Z.of_nat k)).
Proof.
  intros Hk. unfold arange_int16.
  rewrite list_lookup_fmap, lookup_seq_lt by done. done.
Qed.

Lemma reshape_arange_int16 npl npw :
  0 <= npl -> 0 <= npw ->
  reshape (arange_int16 (npl * npw)) (npw, npl)
  = inr (mk_ndarray (npw, npl) (arange_int16 (npl * npw))).
Proof.
  intros Hl Hw. unfold reshape. rewrite length_arange_int16.
  rewrite Z2Nat.id by nia.
  destruct (npw <? 0) eqn:E1; [lia|].
  destruct (npl <? 0) eqn:E2; [lia|]. simpl.
  destruct (npw * npl =? npl * npw) eqn:E5; [done|lia].
Qed.

Lemma FaultOrdering_loop_layout l : forall dim count vm sm,
  Forall (fun p : Z * Z => 0 <= p.1 /\ 0 <= p.2) l ->
  FaultOrdering_loop l dim count vm sm
  = inr (dim + sumZ (patch_counts l), vm ++ layout l dim count,
         sm ++ (PatchMap.indexmap <$> layout l dim count)).
Proof.
  induction l as [|[npl npw] l IH]; intros dim count vm sm Hl.
  - simpl. by rewrite Z.add_0_r, !app_nil_r.
  - inversion Hl as [|? ? [Hnpl Hnpw] Hl']; subst.
    cbn [FaultOrdering_loop layout patch_counts fmap list_fmap sumZ foldr
         fst snd].
    rewrite reshape_arange_int16 by done.
    cbn [rbind]. rewrite IH by done. rewrite <- !app_assoc.
    cbn [app PatchMap.indexmap]. fold (patch_counts l).
    fold (sumZ (patch_counts l)).
    do 3 f_equal. lia.
Qed.

Lemma length_layout l : forall dim count,
  length (layout l dim count) = length l.
Proof.
  induction l as [|[npl npw] l IH]; intros; simpl; [done|by rewrite IH].
Qed.

Lemma lookup_layout l : forall dim count (i : nat) pm,
  layout l dim count !! i = Some pm ->
  exists npl npw, l !! i = Some (npl, npw) /\
    pm = PatchMap.mk (count + Z.of_nat i)
           (dim + sumZ (take i (patch_counts l)),
            dim + sumZ (take i (patch_counts l)) + npl * npw)
           (npw, npl) (npl * npw)
           (mk_ndarray (npw, npl) (arange_int16 (npl * npw))).
Proof.
  induction l as [|[npl npw] l IH]; intros dim count i pm H; [done|].
  destruct i as [|i]; simpl in H.
  - inversion H; subst. exists npl, npw. split; [done|]. simpl.
    by rewrite !Z.add_0_r.
  - apply IH in H as (npl' & npw' & Hl & ->).
    exists npl', npw'. split; [done|]. simpl.
    f_equal; [lia|]. f_equal; lia.
Qed.

Lemma sumZ_take_mono (cs : list Z) (i j : nat) :
  Forall (fun c => 0 <= c) cs -> (i <= j)%nat ->
  sumZ (take i cs) <= sumZ (take j cs).
Proof.
  intros Hcs. revert i j.
  induction Hcs as [|c cs Hc Hcs IH]; intros i j Hij.
  - by rewrite !take_nil.
  - destruct i as [|i], j as [|j]; simpl; try lia.
    + assert (0 <= sumZ (take j cs)); [|lia].
      specialize (IH 0%nat j). rewrite take_0 in IH. simpl in IH. lia.
    + specialize (IH i j). lia.
Qed.

Lemma sumZ_take_S (cs : list Z) (i : nat) c :
  cs !! i = Some c -> sumZ (take (S i) cs) = sumZ (take i cs) + c.
Proof.
  revert i. induction cs as [|c' cs IH]; intros i H; [done|].
  destruct i as [|i]; simpl in *.
  - inversion H; subst. lia.
  - rewrite (IH i H). lia.
Qed.

Lemma sumZ_cover (cs : list Z) k :
  Forall (fun c => 0 <= c) cs -> 0 <= k < sumZ cs ->
  exists (i : nat) c, cs !! i = Some c /\
    sumZ (take i cs) <= k < sumZ (take i cs) + c.
Proof.
  intros Hcs. revert k.
  induction Hcs as [|c cs Hc Hcs IH]; intros k Hk; simpl in Hk; [lia|].
  destruct (decide (k < c)) as [Hlt|Hge].
  - exists 0%nat, c. simpl. split; [done|lia].
  - destruct (IH (k - c)) as (i & c' & Hi & Hr); [lia|].
    exists (S i), c'. simpl. split; [done|lia].
Qed.

Lemma patch_counts_nonneg (l : list (Z * Z)) :
  Forall (fun p : Z * Z => 0 <= p.1 /\ 0 <= p.2) l ->
  Forall (fun c => 0 <= c) (patch_counts l).
Proof.
  unfold patch_counts. intros H. apply Forall_fmap.
  eapply Forall_impl; [exact H|]. simpl. intros [a b] [? ?]; simpl in *. nia.
Qed.

Lemma zip_nonneg (npls npws : list Z) :
  Forall (fun n => 0 <= n) npls -> Forall (fun n => 0 <= n) npws ->
  Forall (fun p : Z * Z => 0 <= p.1 /\ 0 <= p.2) (zip npls npws).
Proof.
  intros Hl. revert npws. induction Hl as [|a npls Ha Hl IH]; intros npws Hw.
  - constructor.
  - destruct Hw as [|b npws Hb Hw]; simpl; constructor; auto.
Qed.

Lemma FaultOrdering_init_layout npls npws pss psd :
  Forall (fun n => 0 <= n) npls -> Forall (fun n => 0 <= n) npws ->
  FaultOrdering_init npls npws pss psd
  = inr (mk_FaultOrdering psd pss (layout (zip npls npws) 0 0)
           (PatchMap.indexmap <$> layout (zip npls npws) 0 0)
           (sumZ (patch_counts (zip npls npws)))).
Proof.
  intros Hl Hw. unfold FaultOrdering_init.
  rewrite FaultOrdering_loop_layout by (by apply zip_nonneg).
  reflexivity.
Qed.

(** C1.  A FaultOrdering built from non-negative patch numbers exists,
    has one PatchMap per pair of [zip(npls, npws)], and its slices are the
    consecutive half-open ranges of lengths [n_strike * n_dip] in
    subfault order: the first starts at 0, each starts where the one
    before stops, two different ones share no index, every index below
    [npatches] lies in one, and [npatches] is the sum of the
    [n_strike * n_dip]. *)
Theorem FaultOrdering_slices_partition (npls npws : list Z) (pss psd : Q) :
  Forall (fun n => 0 <= n) npls -> Forall (fun n => 0 <= n) npws ->
  exists fo, FaultOrdering_init npls npws pss psd = inr fo /\
    length (vmap fo) = length (zip npls npws) /\
    npatches fo = sumZ (patch_counts (zip npls npws)) /\
    (forall (i : nat) pm, vmap fo !! i = Some pm ->
       exists npl npw, zip npls npws !! i = Some (npl, npw) /\
         PatchMap.count pm = Z.of_nat i /\
         PatchMap.shp pm = (npw, npl) /\
         PatchMap.npatches pm = npl * npw /\
         (PatchMap.slc pm).1
         = sumZ (take i (patch_counts (zip npls npws))) /\
         (PatchMap.slc pm).2 = (PatchMap.slc pm).1 + npl * npw) /\
    (forall (i : nat) pm pm', vmap fo !! i = Some pm ->
       vmap fo !! S i = Some pm' ->
       (PatchMap.slc pm').1 = (PatchMap.slc pm).2) /\
    (forall (i j : nat) pm pm' k, i <> j ->
       vmap fo !! i = Some pm -> vmap fo !! j = Some pm' ->
       in_slice k (PatchMap.slc pm) -> ~ in_slice k (PatchMap.slc pm')) /\
    (forall k, 0 <= k < npatches fo <->
       exists (i : nat) pm, vmap fo !! i = Some pm /\
         in_slice k (PatchMap.slc pm)).
Proof.
  intros Hl Hw.
  pose proof (zip_nonneg _ _ Hl Hw) as Hz.
  pose proof (patch_counts_nonneg _ Hz) as Hc.
  set (l := zip npls npws) in *. set (cs := patch_counts l) in *.
  eexists. split; [by apply FaultOrdering_init_layout|]. simpl. fold l cs.
  assert (Hlook : forall (i : nat) pm, layout l 0 0 !! i = Some pm ->
    exists npl npw, l !! i = Some (npl, npw) /\ cs !! i = Some (npl * npw) /\
      PatchMap.count pm = Z.of_nat i /\ PatchMap.shp pm = (npw, npl) /\
      PatchMap.npatches pm = npl * npw /\
      PatchMap.slc pm = (sumZ (take i cs), sumZ (take i cs) + npl * npw)).
  { intros i pm H. apply lookup_layout in H as (npl & npw & Hi & ->).
    exists npl, npw. simpl. split; [done|]. split.
    - unfold cs, patch_counts. rewrite list_lookup_fmap, Hi. done.
    - repeat split; f_equal; lia. }
  assert (Hsep : forall (i j : nat) pm pm', (i < j)%nat ->
    layout l 0 0 !! i = Some pm -> layout l 0 0 !! j = Some pm' ->
    (PatchMap.slc pm).2 <= (PatchMap.slc pm').1).
  { intros i j pm pm' Hij Hi Hj.
    apply Hlook in Hi as (a & b & _ & Hci & _ & _ & _ & ->).
    apply Hlook in Hj as (a' & b' & _ & _ & _ & _ & _ & ->). simpl.
    rewrite <- (sumZ_take_S cs i _ Hci).
    apply sumZ_take_mono; [done|lia]. }
  split; [apply length_layout|]. split; [done|]. split; [|split; [|split]].
  - intros i pm H. apply Hlook in H as (a & b & ? & ? & ? & ? & ? & ->).
    exists a, b. done.
  - intros i pm pm' Hi Hj.
    apply Hlook in Hi as (a & b & _ & Hci & _ & _ & _ & ->).
    apply Hlook in Hj as (a' & b' & _ & _ & _ & _ & _ & ->). simpl.
    by rewrite (sumZ_take_S cs i _ Hci).
  - intros i j pm pm' k Hij Hi Hj Hk Hk'. unfold in_slice in *.
    destruct (decide (i < j)%nat).
    + pose proof (Hsep i j pm pm' ltac:(done) Hi Hj). lia.
    + pose proof (Hsep j i pm' pm ltac:(lia) Hj Hi). lia.
  - intros k. split.
    + intros Hk. destruct (sumZ_cover cs k Hc Hk) as (i & c & Hci & Hr).
      destruct (layout l 0 0 !! i) as [pm|] eqn:Hpm.
      * exists i, pm. split; [done|].
        apply Hlook in Hpm as (a & b & _ & Hci' & _ & _ & _ & ->).
        unfold in_slice. simpl. congruence.
      * apply lookup_ge_None in Hpm. rewrite length_layout in Hpm.
        apply lookup_lt_Some in Hci. unfold cs, patch_counts in Hci.
        rewrite length_fmap in Hci. lia.
    + intros (i & pm & Hi & Hk).
      apply Hlook in Hi as (a & b & _ & Hci & _ & _ & _ & Hs).
      unfold in_slice in Hk. rewrite Hs in Hk. simpl in Hk.
      rewrite <- (sumZ_take_S cs i _ Hci) in Hk.
      pose proof (sumZ_take_mono cs 0 i Hc ltac:(lia)) as H0.
      pose proof (sumZ_take_mono cs (S i) (length cs) Hc) as H1.
      rewrite take_0 in H0. rewrite firstn_all in H1. simpl in H0.
      apply lookup_lt_Some in Hci. lia.
Qed.

Lemma FaultOrdering_slices_partition_witness :
  exists fo, FaultOrdering_init [3; 2] [2; 4] 5 5 = inr fo /\
    npatches fo = 14.
Proof.
  destruct (FaultOrdering_slices_partition [3; 2] [2; 4] 5 5)
    as (fo & Hfo & _ & Hn & _).
  - all_nonneg.
  - all_nonneg.
  - exists fo. split; [exact Hfo|]. rewrite Hn. reflexivity.
Defined.

(** ** The index map of a subfault *)

Lemma wrap16_id z : -32768 <= z < 32768 -> wrap16 z = z.
Proof. intros H. unfold wrap16. rewrite Z.mod_small; lia. Qed.

Lemma wrap16_range z : -32768 <= wrap16 z < 32768.
Proof.
  unfold wrap16. pose proof (Z.mod_pos_bound (z + 32768) 65536). lia.
Qed.

Lemma wrap16_congr z : (wrap16 z - z) mod 65536 = 0.
Proof.
  unfold wrap16.
  replace ((z + 32768) mod 65536 - 32768 - z)
    with (- ((z + 32768) / 65536) * 65536)
    by (pose proof (Z.div_mod (z + 32768) 65536); lia).
  apply Z.mod_mul. lia.
Qed.

Lemma py_index_in_range n i : 0 <= i < n -> py_index n i = inr i.
Proof.
  intros H. unfold py_index.
  destruct (0 <=? i) eqn:E1; [|lia]. destruct (i <? n) eqn:E2; [done|lia].
Qed.

Lemma py_getitem_lookup {A} (l : list A) (i : nat) a :
  l !! i = Some a -> py_getitem l (Z.of_nat i) = inr a.
Proof.
  intros H. unfold py_getitem.
  rewrite py_index_in_range by (apply lookup_lt_Some in H; lia).
  simpl. by rewrite Nat2Z.id, H.
Qed.

Lemma nd_getitem_arange npl npw d s :
  0 <= d < npw -> 0 <= s < npl ->
  nd_getitem (mk_ndarray (npw, npl) (arange_int16 (npl * npw))) d s
  = inr (wrap16 (d * npl + s)).
Proof.
  intros Hd Hs. unfold nd_getitem. cbn [nd_shape nd_data].
  rewrite !py_index_in_range by done. cbn [rbind].
  rewrite lookup_arange_int16 by nia.
  rewrite Z2Nat.id by nia. done.
Qed.

(** The entry [patchmap] reads for a cell of a subfault: the row-major
    number of the cell, stored in an [int16]. *)
Lemma patchmap_entry (fg : FaultGeometry) npls npws pss psd
    (i : nat) n_strike n_dip d s :
  Forall (fun n => 0 <= n) npls -> Forall (fun n => 0 <= n) npws ->
  FaultOrdering_init npls npws pss psd = inr (ordering fg) ->
  zip npls npws !! i = Some (n_strike, n_dip) ->
  0 <= d < n_dip -> 0 <= s < n_strike ->
  patchmap fg (Z.of_nat i) d s = inr (wrap16 (d * n_strike + s)).
Proof.
  intros Hl Hw Hfo Hi Hd Hs.
  rewrite FaultOrdering_init_layout in Hfo by done.
  inversion Hfo as [Hfo']. unfold patchmap. rewrite <- Hfo'. cbn [vmap].
  destruct (layout (zip npls npws) 0 0 !! i) as [pm|] eqn:Hpm.
  - rewrite (py_getitem_lookup _ _ _ Hpm). cbn [rbind].
    apply lookup_layout in Hpm as (a & b & Hi' & ->).
    rewrite Hi in Hi'. inversion Hi'; subst a b.
    cbn [PatchMap.indexmap]. by apply nd_getitem_arange.
  - apply lookup_ge_None in Hpm. rewrite length_layout in Hpm.
    apply lookup_lt_Some in Hi. lia.
Qed.

(** C2, as the code has it.  For a subfault of at most 32768 patches,
    [patchmap] sends the cell [(dip_idx, strike_idx)] of the grid
    [[0,n_dip) x [0,n_strike)] to [dip_idx * n_strike + strike_idx], and
    this map is one-to-one and onto [0 .. n_dip*n_strike - 1]. *)
Theorem patchmap_row_major_bijection (fg : FaultGeometry) npls npws pss psd
    (i : nat) n_strike n_dip :
  Forall (fun n => 0 <= n) npls -> Forall (fun n => 0 <= n) npws ->
  FaultOrdering_init npls npws pss psd = inr (ordering fg) ->
  zip npls npws !! i = Some (n_strike, n_dip) ->
  n_dip * n_strike <= 32768 ->
  (forall d s, 0 <= d < n_dip -> 0 <= s < n_strike ->
     patchmap fg (Z.of_nat i) d s = inr (d * n_strike + s) /\
     0 <= d * n_strike + s < n_dip * n_strike) /\
  (forall d s d' s', 0 <= d < n_dip -> 0 <= s < n_strike ->
     0 <= d' < n_dip -> 0 <= s' < n_strike ->
     patchmap fg (Z.of_nat i) d s = patchmap fg (Z.of_nat i) d' s' ->
     d = d' /\ s = s') /\
  (forall k, 0 <= k < n_dip * n_strike ->
     exists d s, 0 <= d < n_dip /\ 0 <= s < n_strike /\
       patchmap fg (Z.of_nat i) d s = inr k).
Proof.
  intros Hl Hw Hfo Hi Hsmall.
  assert (0 <= n_strike /\ 0 <= n_dip) as [Hns Hnd].
  { pose proof (zip_nonneg _ _ Hl Hw) as Hz.
    rewrite Forall_lookup in Hz. apply (Hz i _ Hi). }
  assert (Hval : forall d s, 0 <= d < n_dip -> 0 <= s < n_strike ->
            patchmap fg (Z.of_nat i) d s = inr (d * n_strike + s)).
  { intros d s Hd Hs.
    rewrite (patchmap_entry fg npls npws pss psd i n_strike n_dip) by done.
    rewrite wrap16_id; [done|nia]. }
  split; [|split].
  - intros d s Hd Hs. split; [by apply Hval|nia].
  - intros d s d' s' Hd Hs Hd' Hs' Heq.
    rewrite !Hval in Heq by done. inversion Heq as [Heq'].
    assert (d = d') by nia. subst d'. split; [done|lia].
  - intros k Hk. assert (0 < n_strike) by nia.
    exists (k / n_strike), (k mod n_strike).
    pose proof (Z.mod_pos_bound k n_strike ltac:(done)).
    pose proof (Z.div_mod k n_strike ltac:(lia)).
    assert (0 <= k / n_strike < n_dip).
    { split; [apply Z.div_pos; lia|].
      apply Z.div_lt_upper_bound; [done|nia]. }
    split; [done|]. split; [done|].
    rewrite Hval by done. f_equal. lia.
Qed.

Lemma FaultOrdering_init_laid_out npls npws pss psd :
  Forall (fun n => 0 <= n) npls -> Forall (fun n => 0 <= n) npws ->
  FaultOrdering_init npls npws pss psd
  = inr (ordering (geometry npls npws pss psd)).
Proof. apply FaultOrdering_init_layout. Qed.

Lemma patchmap_row_major_bijection_witness :
  patchmap (geometry [3; 2] [2; 4] 5 5) 0 1 2 = inr 5.
Proof.
  destruct (patchmap_row_major_bijection (geometry [3; 2] [2; 4] 5 5)
              [3; 2] [2; 4] 5 5 0 3 2) as [H _].
  - all_nonneg.
  - all_nonneg.
  - reflexivity.
  - reflexivity.
  - lia.
  - exact (proj1 (H 1 2 ltac:(lia) ltac:(lia))).
Defined.

(** C2 as stated fails on a subfault of one dip row and 32769 strike
    columns: the entry of the cell [(0, 32768)] is [-32768], not
    [0 * 32769 + 32768]. *)
Lemma patchmap_row_major_overflow :
  FaultOrdering_init [32769] [1] 5 5
  = inr (ordering (geometry [32769] [1] 5 5)) /\
  patchmap (geometry [32769] [1] 5 5) 0 0 32768 = inr (-32768) /\
  patchmap (geometry [32769] [1] 5 5) 0 0 32768 <> inr (0 * 32769 + 32768).
Proof.
  assert (H : patchmap (geometry [32769] [1] 5 5) 0 0 32768
              = inr (-32768)).
  { change 0 with (Z.of_nat 0) at 1.
    rewrite (patchmap_entry _ [32769] [1] 5 5 0 32769 1);
      [reflexivity| | | | |lia|lia];
      try (apply FaultOrdering_init_laid_out);
      try reflexivity; all_nonneg. }
  split; [apply FaultOrdering_init_laid_out; all_nonneg|].
  split; [exact H|]. rewrite H. discriminate.
Qed.

(** ** Entries of 16 bits *)

(** C10, as the code has it.  An index [positions2idxs] returns is the
    rounded quotient stored in an [int16]: it lies in [-32768 .. 32767]
    and differs from the rounded quotient by a multiple of [2^16]; the
    entry of the index map at a cell is the row-major number of the cell
    stored in an [int16] likewise.  For a subfault of more than 32768
    patches the index map holds the negative entry [-32768] at flat
    position 32768, and no cell is mapped to 32768, so the map is not
    onto [0 .. patch_count - 1]. *)
Theorem int16_wraparound (backends : string -> option (Q -> Z))
    (fg : FaultGeometry) npls npws pss psd (i : nat) n_strike n_dip :
  Forall (fun n => 0 <= n) npls -> Forall (fun n => 0 <= n) npws ->
  FaultOrdering_init npls npws pss psd = inr (ordering fg) ->
  zip npls npws !! i = Some (n_strike, n_dip) ->
  (forall positions cell_size backend idx,
     positions2idxs backends positions cell_size backend = inr (Some idx) ->
     -32768 <= idx <= 32767 /\
     exists round q, backends backend = Some round /\
       fdiv (positions - cell_size / 2) cell_size = Some q /\
       idx = wrap16 (round q) /\ (idx - round q) mod 65536 = 0) /\
  (forall d s, 0 <= d < n_dip -> 0 <= s < n_strike ->
     exists v, patchmap fg (Z.of_nat i) d s = inr v /\
       v = wrap16 (d * n_strike + s) /\ -32768 <= v <= 32767 /\
       (v - (d * n_strike + s)) mod 65536 = 0) /\
  (32768 < n_dip * n_strike ->
     (exists d s, 0 <= d < n_dip /\ 0 <= s < n_strike /\
        d * n_strike + s = 32768 /\
        patchmap fg (Z.of_nat i) d s = inr (-32768)) /\
     ~ (exists d s, 0 <= d < n_dip /\ 0 <= s < n_strike /\
          patchmap fg (Z.of_nat i) d s = inr 32768)).
Proof.
  intros Hl Hw Hfo Hi.
  assert (0 <= n_strike /\ 0 <= n_dip) as [Hns Hnd].
  { pose proof (zip_nonneg _ _ Hl Hw) as Hz.
    rewrite Forall_lookup in Hz. apply (Hz i _ Hi). }
  pose proof (patchmap_entry fg npls npws pss psd i n_strike n_dip)
    as Hentry.
  split; [|split].
  - intros positions cell_size backend idx H. unfold positions2idxs in H.
    destruct (backends backend) as [round|]; [|discriminate].
    destruct (fdiv (positions - cell_size / 2) cell_size) as [q|];
      [|discriminate].
    simpl in H. inversion H; subst idx.
    split; [pose proof (wrap16_range (round q)); lia|].
    exists round, q. repeat split; try done. apply wrap16_congr.
  - intros d s Hd Hs. eexists. split; [by apply Hentry|].
    split; [done|].
    split; [pose proof (wrap16_range (d * n_strike + s)); lia|].
    apply wrap16_congr.
  - intros Hbig. assert (0 < n_strike) by nia.
    pose proof (Z.mod_pos_bound 32768 n_strike ltac:(done)).
    pose proof (Z.div_mod 32768 n_strike ltac:(lia)).
    assert (0 <= 32768 / n_strike < n_dip).
    { split; [apply Z.div_pos; lia|].
      apply Z.div_lt_upper_bound; [done|nia]. }
    split.
    + exists (32768 / n_strike), (32768 mod n_strike).
      split; [done|]. split; [done|]. split; [lia|].
      rewrite Hentry by done.
      replace (32768 / n_strike * n_strike + 32768 mod n_strike)
        with 32768 by lia.
      reflexivity.
    + intros (d & s & Hd & Hs & Hv). rewrite Hentry in Hv by done.
      inversion Hv as [Hv'].
      pose proof (wrap16_range (d * n_strike + s)). lia.
Qed.

Lemma int16_wraparound_witness :
  exists d s, 0 <= d < 1 /\ 0 <= s < 32769 /\
    patchmap (geometry [32769] [1] 5 5) 0 d s = inr (-32768).
Proof.
  destruct (int16_wraparound numpy_backend (geometry [32769] [1] 5 5)
              [32769] [1] 5 5 0 32769 1) as (_ & _ & H).
  - all_nonneg.
  - all_nonneg.
  - apply FaultOrdering_init_laid_out; all_nonneg.
  - reflexivity.
  - destruct H as [(d & s & Hd & Hs & _ & Hv) _]; [lia|].
    exists d, s. split; [exact Hd|]. split; [exact Hs|exact Hv].
Defined.

(** C10 as stated fails on a subfault of 32768 patches, which is more
    than 32767: every entry of its index map is the number of its cell,
    none is negative, and the map is onto [0 .. 32767]. *)
Lemma int16_no_wrap_at_32768 :
  FaultOrdering_init [32768] [1] 5 5
  = inr (ordering (geometry [32768] [1] 5 5)) /\
  PatchMap.npatches <$> vmap (ordering (geometry [32768] [1] 5 5))
  = [32768] /\
  forall s, 0 <= s < 32768 ->
    patchmap (geometry [32768] [1] 5 5) 0 0 s = inr s.
Proof.
  split; [apply FaultOrdering_init_laid_out; all_nonneg|].
  split; [reflexivity|].
  intros s Hs. change 0 with (Z.of_nat 0) at 1.
  rewrite (patchmap_entry _ [32768] [1] 5 5 0 32768 1);
    [|all_nonneg|all_nonneg
     |apply FaultOrdering_init_laid_out; all_nonneg
     |reflexivity|lia|lia].
  rewrite wrap16_id by lia. reflexivity.
Qed.

(** ** From the centre of a patch back to its cell *)







(** ** Negative subfault indices *)

Lemma py_index_negative n k : 1 <= k <= n -> py_index n (- k) = inr (n - k).
Proof.
  intros H. unfold py_index.
  destruct (0 <=? - k) eqn:E1; [lia|]. cbn [andb].
  destruct (- n <=? - k) eqn:E2; [|lia].
  destruct (- k <? 0) eqn:E3; [|lia]. cbn [andb]. f_equal. lia.
Qed.

Lemma py_getitem_negative {A} (l : list A) k a :
  1 <= k <= Z.of_nat (length l) ->
  l !! Z.to_nat (Z.of_nat (length l) - k) = Some a ->
  py_getitem l (- k) = inr a.
Proof.
  intros Hk Ha. unfold py_getitem. rewrite py_index_negative by done.
  cbn [rbind]. by rewrite Ha.
Qed.

(** C9.  [_check_index] rejects exactly the indices above
    [nsubfaults - 1].  For [1 <= k <= nsubfaults] the index [-k] is
    accepted, and [get_patch_indexes] and [get_subfault_discretization]
    return the slice and the shape of subfault [nsubfaults - k], the
    same as for the index [nsubfaults - k]. *)
Theorem negative_index_accepted (fg : FaultGeometry) (k : Z) :
  1 <= k <= nsubfaults fg ->
  (forall index, _check_index fg index = inl (TypeError SubfaultNotDefined)
     <-> index > nsubfaults fg - 1) /\
  _check_index fg (- k) = inr tt /\
  exists pm,
    vmap (ordering fg) !! Z.to_nat (nsubfaults fg - k) = Some pm /\
    get_patch_indexes fg (- k) = inr (PatchMap.slc pm) /\
    get_subfault_discretization fg (- k) = inr (PatchMap.shp pm) /\
    get_patch_indexes fg (nsubfaults fg - k) = inr (PatchMap.slc pm) /\
    get_subfault_discretization fg (nsubfaults fg - k)
    = inr (PatchMap.shp pm).
Proof.
  intros Hk.
  assert (Hchk : forall index, index <= nsubfaults fg - 1 ->
            _check_index fg index = inr tt).
  { intros index Hi. unfold _check_index.
    destruct (index >? nsubfaults fg - 1) eqn:E; [lia|done]. }
  split; [|split; [apply Hchk; lia|]].
  - intros index. unfold _check_index.
    destruct (index >? nsubfaults fg - 1) eqn:E; split; intros H;
      try done; lia.
  - unfold nsubfaults in *.
    destruct (vmap (ordering fg) !! Z.to_nat
                (Z.of_nat (length (vmap (ordering fg))) - k))
      as [pm|] eqn:Hpm.
    + exists pm. split; [done|].
      assert (Hneg : py_getitem (vmap (ordering fg)) (- k) = inr pm)
        by (by apply py_getitem_negative).
      assert (Hpos : py_getitem (vmap (ordering fg))
                (Z.of_nat (length (vmap (ordering fg))) - k) = inr pm).
      { rewrite <- (Z2Nat.id (_ - k)) by lia. by apply py_getitem_lookup. }
      unfold get_patch_indexes, get_subfault_discretization.
      rewrite !Hchk by lia. cbn [rbind]. by rewrite Hneg, Hpos.
    + apply lookup_ge_None in Hpm. lia.
Qed.

Lemma negative_index_accepted_witness :
  get_patch_indexes (geometry [3; 2] [2; 4] 5 5) (- 1) = inr (6, 14) /\
  get_subfault_discretization (geometry [3; 2] [2; 4] 5 5) (- 1)
  = inr (4, 2).
Proof.
  destruct (negative_index_accepted (geometry [3; 2] [2; 4] 5 5) 1)
    as (_ & _ & pm & Hpm & Hs & Hd & _).
  - vm_compute. split; discriminate.
  - vm_compute in Hpm. inversion Hpm; subst pm. split; [exact Hs|exact Hd].
Defined.

(** ** What is handed to the rupture-time solver *)

Lemma FaultOrdering_init_sizes npls npws pss psd fo :
  FaultOrdering_init npls npws pss psd = inr fo ->
  patch_size_strike fo = pss /\ patch_size_dip fo = psd.
Proof.
  unfold FaultOrdering_init.
  destruct (FaultOrdering_loop (zip npls npws) 0 0 [] [])
    as [e|[[dim vm] sm]]; [discriminate|].
  simpl. intros H. by inversion H.
Qed.

Lemma same_frame_refl fg : same_frame fg fg.
Proof. by repeat split. Qed.

Lemma same_frame_trans fg1 fg2 fg3 :
  same_frame fg1 fg2 -> same_frame fg2 fg3 -> same_frame fg1 fg3.
Proof.
  intros (? & ? & ?) (? & ? & ?). repeat split; congruence.
Qed.

Lemma same_frame_store fg key source : same_frame fg (store fg key source).
Proof. by repeat split. Qed.

Lemma setup_subfaults_loop_frame ext_sources :
  forall fg datatype component i replace,
  same_frame fg
    (setup_subfaults_loop fg datatype component i ext_sources replace).1.
Proof.
  induction ext_sources as [|source rest IH];
    intros fg datatype component i replace; simpl.
  - apply same_frame_refl.
  - destruct (get_subfault_key fg i (Some datatype) (Some component))
      as [e|key]; [apply same_frame_refl|].
    destruct (bool_decide (_ext_sources fg !! key = None) || replace).
    + eapply same_frame_trans; [apply (same_frame_store fg key source)|].
      apply IH.
    + apply same_frame_refl.
Qed.

Lemma setup_subfaults_frame fg datatype component ext_sources replace :
  same_frame fg
    (setup_subfaults fg datatype component ext_sources replace).1.
Proof.
  unfold setup_subfaults.
  destruct (_check_datatype fg datatype); [apply same_frame_refl|].
  destruct (_check_component fg component); [apply same_frame_refl|].
  destruct (negb _); [apply same_frame_refl|].
  apply setup_subfaults_loop_frame.
Qed.

Section Frames.

Variable extent_source : Source -> Q -> Q -> Q -> Q -> result Source.
Variable get_n_patches : Source -> Q -> string -> result Z.
Variable sources : list Source.
Variables ew el pw_m pl_m : Q.

Lemma setup_components_frame varnames : forall fault datatype fault',
  setup_components extent_source get_n_patches sources ew el pw_m pl_m
    fault datatype varnames = inr fault' ->
  same_frame fault fault'.
Proof.
  induction varnames as [|var rest IH]; intros fault datatype fault' H;
    simpl in H.
  - inversion H. apply same_frame_refl.
  - destruct (slip_directions var) as [e|p]; [discriminate|].
    simpl in H.
    destruct (extend_sources _ _ _ _ _ _ _ _) as [e|exts];
      [discriminate|].
    simpl in H.
    pose proof (setup_subfaults_frame fault datatype var exts false)
      as Hf.
    destruct (setup_subfaults fault datatype var exts false)
      as [fault1 [e|[]]]; [discriminate|].
    eapply same_frame_trans; [exact Hf|]. by eapply IH.
Qed.

Lemma setup_datatypes_frame dts : forall fault varnames fault',
  setup_datatypes extent_source get_n_patches sources ew el pw_m pl_m
    fault dts varnames = inr fault' ->
  same_frame fault fault'.
Proof.
  induction dts as [|dt rest IH]; intros fault varnames fault' H;
    simpl in H.
  - inversion H. apply same_frame_refl.
  - destruct (setup_components _ _ _ _ _ _ _ fault dt varnames)
      as [e|fault1] eqn:E; [discriminate|].
    simpl in H. apply setup_components_frame in E.
    eapply same_frame_trans; [exact E|]. by eapply IH.
Qed.

End Frames.

Lemma discretize_sources_square extent_source get_n_patches sources
    ew el pw pl dts varnames fg :
  discretize_sources extent_source get_n_patches sources ew el pw pl
    dts varnames = inr fg ->
  "seismic" ∈ dts ->
  (patch_size_strike (ordering fg) == patch_size_dip (ordering fg))%Q.
Proof.
  intros H Hs. unfold discretize_sources in H.
  rewrite (bool_decide_eq_true_2 _ Hs) in H. cbn [andb] in H.
  destruct (Qeq_bool pl pw) eqn:Hsq; [|discriminate]. cbn [negb] in H.
  destruct (_ >? 1); [discriminate|].
  returned H as [npls npws] Hcount. returned H as fo Hfo.
  apply setup_datatypes_frame in H as (_ & _ & Ho).
  apply FaultOrdering_init_sizes in Hfo as [Hps Hpd].
  rewrite Ho. cbn [FaultGeometry_init ordering]. rewrite Hps, Hpd.
  by apply Qeq_bool_eq.
Qed.

(** C3, as the code has it.  [get_subfault_starttimes] hands the solver
    one spacing, [ordering.patch_size_dip], for the dip axis and for the
    strike axis alike.  It equals [ordering.patch_size_strike] for every
    geometry [discretize_sources] returns for datatypes that include
    ['seismic'], where square patches are required. *)
Theorem starttimes_spacing (fg : FaultGeometry) (index : Z)
    (rupture_velocities : list Q) (nuc_dip_idx nuc_strike_idx : Z)
    (args : SweepArgs) :
  starttimes_call fg index rupture_velocities nuc_dip_idx nuc_strike_idx
  = inr args ->
  spacing_dip args = patch_size_dip (ordering fg) /\
  spacing_strike args = patch_size_dip (ordering fg) /\
  (forall solver,
     get_subfault_starttimes solver fg index rupture_velocities
       nuc_dip_idx nuc_strike_idx = solver args) /\
  (forall extent_source get_n_patches sources ew el pw pl dts varnames,
     discretize_sources extent_source get_n_patches sources ew el pw pl
       dts varnames = inr fg ->
     "seismic" ∈ dts ->
     (spacing_strike args == patch_size_strike (ordering fg))%Q).
Proof.
  intros Hcall.
  assert (Hp : patch_size args = patch_size_dip (ordering fg)).
  { unfold starttimes_call in Hcall.
    destruct (get_subfault_discretization fg index) as [e|[npw npl]];
      [discriminate|]. cbn [rbind] in Hcall.
    destruct (reshape rupture_velocities (npw, npl)) as [e|v];
      [discriminate|]. cbn [rbind] in Hcall.
    by inversion Hcall. }
  split; [exact Hp|]. split; [exact Hp|]. split.
  - intros solver. unfold get_subfault_starttimes. by rewrite Hcall.
  - intros es gnp sources ew el pw pl dts varnames Hd Hs.
    unfold spacing_strike. rewrite Hp. symmetry.
    by eapply discretize_sources_square.
Qed.

Lemma starttimes_spacing_witness :
  exists args,
    starttimes_call (geometry [2] [1] 5 5) 0 [3; 3]%Q 0 0 = inr args /\
    spacing_dip args = 5%Q /\ spacing_strike args = 5%Q.
Proof.
  eexists. split; [reflexivity|].
  destruct (starttimes_spacing (geometry [2] [1] 5 5) 0 [3; 3]%Q 0 0 _
              eq_refl) as (Hd & Hs & _).
  split; [exact Hd|exact Hs].
Defined.

(** C3 as stated fails for an ordering with a strike size of 2 and a dip
    size of 1: the spacing handed to the solver is 1, and it is not the
    strike size. *)
Lemma starttimes_spacing_not_strike :
  FaultOrdering_init [1] [1] 2 1 = inr (ordering (geometry [1] [1] 2 1)) /\
  exists args,
    starttimes_call (geometry [1] [1] 2 1) 0 [1%Q] 0 0 = inr args /\
    spacing_strike args = 1%Q /\
    patch_size_strike (ordering (geometry [1] [1] 2 1)) = 2%Q /\
    ~ Qeq (spacing_strike args)
        (patch_size_strike (ordering (geometry [1] [1] 2 1))).
Proof.
  split; [reflexivity|]. eexists. split; [reflexivity|].
  split; [reflexivity|]. split; [reflexivity|]. discriminate.
Qed.










(** ** The checks of [discretize_sources] for seismic data *)

(** C7, as the code has it.  With ['seismic'] among the datatypes,
    [discretize_sources] raises the ValueError on square patches when
    [patch_length] differs from [patch_width], and raises a ValueError
    when more than one source is given, the one on a single main fault
    when the patches are square (the check of the patches comes first).  This holds whatever
    [extent_source] does, so the error comes before an ordering or a
    geometry is built, and none is returned. *)
Theorem seismic_checks_first
    (extent_source : Source -> Q -> Q -> Q -> Q -> result Source)
    (get_n_patches : Source -> Q -> string -> result Z)
    (sources : list Source) (ew el patch_width patch_length : Q)
    (dts varnames : list string) :
  "seismic" ∈ dts ->
  (~ (patch_length == patch_width)%Q ->
     discretize_sources extent_source get_n_patches sources ew el
       patch_width patch_length dts varnames
     = inl (ValueError SquarePatchesOnly)) /\
  (1 < Z.of_nat (length sources) ->
     exists m,
       discretize_sources extent_source get_n_patches sources ew el
         patch_width patch_length dts varnames
       = inl (ValueError m) /\
       ((patch_length == patch_width)%Q -> m = OneMainFaultOnly)).
Proof.
  intros Hs. unfold discretize_sources.
  rewrite (bool_decide_eq_true_2 _ Hs). cbn [andb].
  destruct (Qeq_bool patch_length patch_width) eqn:Hsq; cbn [negb].
  - apply Qeq_bool_eq in Hsq. split; [done|].
    intros Hn. destruct (_ >? 1) eqn:E; [|lia].
    exists OneMainFaultOnly. done.
  - apply Qeq_bool_neq in Hsq. split; [done|].
    intros Hn. exists SquarePatchesOnly. done.
Qed.

Lemma seismic_checks_first_witness :
  discretize_sources extent_source_padded get_n_patches_ceil
    [plane_a; plane_b] (1 # 10) (1 # 10) 4 5 ["seismic"] ["uparr"]
  = inl (ValueError SquarePatchesOnly) /\
  discretize_sources extent_source_padded get_n_patches_ceil
    [plane_a; plane_b] (1 # 10) (1 # 10) 5 5 ["seismic"] ["uparr"]
  = inl (ValueError OneMainFaultOnly).
Proof.
  split.
  - apply (seismic_checks_first extent_source_padded get_n_patches_ceil
             [plane_a; plane_b] (1 # 10) (1 # 10) 4 5 ["seismic"]
             ["uparr"]).
    + apply list_elem_of_here.
    + discriminate.
  - destruct (seismic_checks_first extent_source_padded get_n_patches_ceil
                [plane_a; plane_b] (1 # 10) (1 # 10) 5 5 ["seismic"]
                ["uparr"]) as [_ H].
    + apply list_elem_of_here.
    + destruct H as (m & Hm & Hsq); [simpl; lia|].
      rewrite Hm, Hsq; reflexivity.
Defined.

(** C7 as stated fails for ['seismic'], two source planes and patches
    of width 4 and length 5: the check of the patches comes first, so
    the ValueError on square patches is raised and not the one on a
    single main fault, whatever [extent_source] does. *)
Lemma seismic_square_check_wins :
  discretize_sources extent_source_padded get_n_patches_ceil
    [plane_a; plane_b] (1 # 10) (1 # 10) 4 5 ["seismic"] ["uparr"]
  = inl (ValueError SquarePatchesOnly) /\
  discretize_sources extent_source_padded get_n_patches_ceil
    [plane_a; plane_b] (1 # 10) (1 # 10) 4 5 ["seismic"] ["uparr"]
  <> inl (ValueError OneMainFaultOnly) /\
  forall extent_source get_n_patches,
    discretize_sources extent_source get_n_patches [plane_a; plane_b]
      (1 # 10) (1 # 10) 4 5 ["seismic"] ["uparr"]
    = inl (ValueError SquarePatchesOnly).
Proof.
  split; [reflexivity|]. split; [discriminate|].
  intros extent_source get_n_patches. reflexivity.
Qed.

(** ** Registration of extended sources *)

Lemma subfault_key_inj datatype component (i j : Z) :
  subfault_key datatype component i = subfault_key datatype component j ->
  i = j.
Proof.
  unfold subfault_key. intros H.
  do 4 apply String.app_inj in H. by apply pretty_Z_inj in H.
Qed.

Lemma get_subfault_key_checked fg index datatype component :
  datatype ∈ datatypes fg -> component ∈ components fg ->
  index <= nsubfaults fg - 1 ->
  get_subfault_key fg index (Some datatype) (Some component)
  = inr (subfault_key datatype component index).
Proof.
  intros Hd Hc Hi. unfold get_subfault_key, _check_datatype,
    _check_component, _check_index.
  rewrite (bool_decide_eq_true_2 _ Hd), (bool_decide_eq_true_2 _ Hc).
  cbn [rbind]. destruct (index >? nsubfaults fg - 1) eqn:E; [lia|done].
Qed.

(** A loop of [setup_subfaults] that comes to its end has stored each
    source under the key of its position and has left every other key
    as it was. *)
Lemma setup_subfaults_loop_stores ext_sources :
  forall fg datatype component i replace fg',
  datatype ∈ datatypes fg -> component ∈ components fg ->
  i + Z.of_nat (length ext_sources) <= nsubfaults fg ->
  setup_subfaults_loop fg datatype component i ext_sources replace
  = (fg', inr tt) ->
  (forall (j : nat) s, ext_sources !! j = Some s ->
     _ext_sources fg' !! subfault_key datatype component (i + Z.of_nat j)
     = Some s) /\
  (forall key,
     (forall j : nat, (j < length ext_sources)%nat ->
        key <> subfault_key datatype component (i + Z.of_nat j)) ->
     _ext_sources fg' !! key = _ext_sources fg !! key).
Proof.
  induction ext_sources as [|source rest IH];
    intros fg datatype component i replace fg' Hd Hc Hlen Hrun.
  - simpl in Hrun. inversion Hrun; subst fg'. split; [done|done].
  - cbn [setup_subfaults_loop] in Hrun. cbn [length] in Hlen.
    rewrite get_subfault_key_checked in Hrun by (done || lia).
    destruct (bool_decide _ || replace); [|discriminate].
    apply IH in Hrun as [Hin Hout]; [|done|done|
      change (nsubfaults (store fg _ source)) with (nsubfaults fg); lia].
    split.
    + intros [|j] s Hj.
      * inversion Hj; subst s. rewrite Z.add_0_r. rewrite Hout.
        -- cbn [store _ext_sources]. apply lookup_insert_eq.
        -- intros j _ Heq. apply subfault_key_inj in Heq. lia.
      * replace (i + Z.of_nat (S j)) with (i + 1 + Z.of_nat j) by lia.
        by apply Hin.
    + intros key Hkey. rewrite Hout.
      * cbn [store _ext_sources]. apply lookup_insert_ne.
        specialize (Hkey 0%nat ltac:(simpl; lia)).
        rewrite Z.add_0_r in Hkey. done.
      * intros j Hj. specialize (Hkey (S j) ltac:(simpl; lia)).
        by replace (i + 1 + Z.of_nat j) with (i + Z.of_nat (S j)) by lia.
Qed.

(** With [replace] set the loop comes to its end. *)
Lemma setup_subfaults_loop_replace ext_sources :
  forall fg datatype component i,
  datatype ∈ datatypes fg -> component ∈ components fg ->
  i + Z.of_nat (length ext_sources) <= nsubfaults fg ->
  exists fg',
    setup_subfaults_loop fg datatype component i ext_sources true
    = (fg', inr tt).
Proof.
  induction ext_sources as [|source rest IH];
    intros fg datatype component i Hd Hc Hlen.
  - by exists fg.
  - cbn [setup_subfaults_loop]. cbn [length] in Hlen.
    rewrite get_subfault_key_checked by (done || lia).
    rewrite orb_true_r. apply IH; [done|done|].
    change (nsubfaults (store fg _ source)) with (nsubfaults fg). lia.
Qed.

Lemma setup_subfaults_checked fg datatype component ext_sources replace :
  datatype ∈ datatypes fg -> component ∈ components fg ->
  Z.of_nat (length ext_sources) = nsubfaults fg ->
  setup_subfaults fg datatype component ext_sources replace
  = setup_subfaults_loop fg datatype component 0 ext_sources replace.
Proof.
  intros Hd Hc Hlen. unfold setup_subfaults, _check_datatype,
    _check_component.
  rewrite (bool_decide_eq_true_2 _ Hd), (bool_decide_eq_true_2 _ Hc).
  destruct (Z.of_nat (length ext_sources) =? nsubfaults fg) eqn:E;
    [done|lia].
Qed.

(** A call of [setup_subfaults] that returns has passed the three
    checks. *)
Lemma setup_subfaults_returns fg datatype component ext_sources replace
    fg' :
  setup_subfaults fg datatype component ext_sources replace
  = (fg', inr tt) ->
  datatype ∈ datatypes fg /\ component ∈ components fg /\
  Z.of_nat (length ext_sources) = nsubfaults fg.
Proof.
  unfold setup_subfaults, _check_datatype, _check_component.
  destruct (bool_decide (datatype ∈ datatypes fg)) eqn:Ed;
    [|discriminate].
  destruct (bool_decide (component ∈ components fg)) eqn:Ec;
    [|discriminate].
  destruct (Z.of_nat (length ext_sources) =? nsubfaults fg) eqn:El;
    [|discriminate].
  intros _. apply bool_decide_eq_true_1 in Ed, Ec. repeat split; [done..|lia].
Qed.

Lemma setup_subfaults_mismatch fg datatype component ext_sources replace :
  Z.of_nat (length ext_sources) <> nsubfaults fg ->
  exists e,
    setup_subfaults fg datatype component ext_sources replace
    = (fg, inl e) /\
    (datatype ∈ datatypes fg -> component ∈ components fg ->
     e = FaultGeometryError SetupDoesNotMatch).
Proof.
  intros Hlen. unfold setup_subfaults, _check_datatype, _check_component.
  destruct (bool_decide (datatype ∈ datatypes fg)) eqn:Ed.
  - destruct (bool_decide (component ∈ components fg)) eqn:Ec.
    + destruct (Z.of_nat (length ext_sources) =? nsubfaults fg) eqn:El;
        [lia|]. by eexists.
    + apply bool_decide_eq_false_1 in Ec. by eexists.
  - apply bool_decide_eq_false_1 in Ed. by eexists.
Qed.

Lemma get_subfault_stored fg index datatype component s :
  datatype ∈ datatypes fg -> component ∈ components fg ->
  index <= nsubfaults fg - 1 ->
  _ext_sources fg !! subfault_key datatype component index = Some s ->
  get_subfault fg index (Some datatype) (Some component) = inr s.
Proof.
  intros Hd Hc Hi Hs. unfold get_subfault. cbn [_assign_datatype
    _assign_component rbind].
  rewrite get_subfault_key_checked by done. cbn [rbind]. by rewrite Hs.
Qed.

(** C6, as the code has it.  In a geometry of at least one subfault,
    after a call of [setup_subfaults] for a datatype and a component has
    returned, a further call for the pair with as many sources as
    subfaults and [replace] unset raises 'Subfault already specified in
    geometry!' and leaves the geometry as it was; with [replace] set it
    returns and every subfault index then holds the new source.  A call
    with a number of sources other than [nsubfaults] raises and leaves
    the geometry as it was. *)
Theorem setup_subfaults_again (fg0 fg1 : FaultGeometry)
    (datatype component : string) (first second : list Source)
    (replace0 : bool) :
  1 <= nsubfaults fg0 ->
  setup_subfaults fg0 datatype component first replace0 = (fg1, inr tt) ->
  Z.of_nat (length second) = nsubfaults fg0 ->
  setup_subfaults fg1 datatype component second false
  = (fg1, inl (FaultGeometryError SubfaultAlreadySpecified)) /\
  (exists fg2,
     setup_subfaults fg1 datatype component second true = (fg2, inr tt) /\
     forall (j : nat) s, second !! j = Some s ->
       _ext_sources fg2 !! subfault_key datatype component (Z.of_nat j)
       = Some s /\
       get_subfault fg2 (Z.of_nat j) (Some datatype) (Some component)
       = inr s) /\
  (forall fg ext_sources replace,
     Z.of_nat (length ext_sources) <> nsubfaults fg ->
     exists e,
       setup_subfaults fg datatype component ext_sources replace
       = (fg, inl e)).
Proof.
  intros Hn Hfirst Hlen.
  destruct (setup_subfaults_returns _ _ _ _ _ _ Hfirst)
    as (Hd & Hc & Hlen0).
  pose proof (setup_subfaults_frame fg0 datatype component first replace0)
    as Hframe. rewrite Hfirst in Hframe. cbn [fst] in Hframe.
  destruct Hframe as (Hfd & Hfc & Hfo).
  assert (Hn1 : nsubfaults fg1 = nsubfaults fg0)
    by (unfold nsubfaults; by rewrite Hfo).
  assert (Hd1 : datatype ∈ datatypes fg1) by (by rewrite Hfd).
  assert (Hc1 : component ∈ components fg1) by (by rewrite Hfc).
  rewrite setup_subfaults_checked in Hfirst by done.
  apply setup_subfaults_loop_stores in Hfirst as [Hin _];
    [|done|done|lia].
  split; [|split].
  - rewrite setup_subfaults_checked by (done || lia).
    destruct second as [|s2 rest]; [simpl in Hlen; lia|].
    destruct first as [|s1 rest1]; [simpl in Hlen0; lia|].
    cbn [setup_subfaults_loop].
    rewrite get_subfault_key_checked by (done || lia).
    specialize (Hin 0%nat s1 eq_refl). change (0 + Z.of_nat 0) with 0 in Hin.
    rewrite bool_decide_eq_false_2 by (by rewrite Hin). done.
  - destruct (setup_subfaults_loop_replace second fg1 datatype component 0)
      as [fg2 Hrun]; [done|done|lia|].
    exists fg2. rewrite setup_subfaults_checked by (done || lia).
    split; [exact Hrun|].
    pose proof (setup_subfaults_loop_frame second fg1 datatype component 0
                  true) as Hframe.
    rewrite Hrun in Hframe. cbn [fst] in Hframe.
    destruct Hframe as (Hfd2 & Hfc2 & Hfo2).
    apply setup_subfaults_loop_stores in Hrun as [Hin2 _];
      [|done|done|lia].
    intros j s Hj. specialize (Hin2 j s Hj). change (0 + Z.of_nat j) with (Z.of_nat j) in Hin2.
    split; [exact Hin2|].
    apply get_subfault_stored; [by rewrite Hfd2|by rewrite Hfc2| |done].
    apply lookup_lt_Some in Hj. unfold nsubfaults in *.
    rewrite Hfo2. lia.
  - intros fg ext_sources replace Hne.
    destruct (setup_subfaults_mismatch fg datatype component ext_sources
                replace Hne) as (e & He & _).
    by exists e.
Qed.

Lemma setup_subfaults_again_witness :
  exists fg1,
    setup_subfaults (geometry [2] [1] 5 5) "geodetic" "uparr" [plane_a]
      false = (fg1, inr tt) /\
    setup_subfaults fg1 "geodetic" "uparr" [plane_b] false
    = (fg1, inl (FaultGeometryError SubfaultAlreadySpecified)).
Proof.
  eexists. split; [reflexivity|].
  apply (setup_subfaults_again (geometry [2] [1] 5 5) _ "geodetic" "uparr"
           [plane_a] [plane_b] false).
  - vm_compute. discriminate.
  - reflexivity.
  - reflexivity.
Defined.

(** C6 as stated fails on a geometry without subfaults: the second call
    for the pair, with [replace] unset, returns as the first did. *)
Lemma setup_subfaults_again_empty :
  FaultOrdering_init [] [] 5 5 = inr (ordering (geometry [] [] 5 5)) /\
  setup_subfaults (geometry [] [] 5 5) "geodetic" "uparr" [] false
  = (geometry [] [] 5 5, inr tt) /\
  setup_subfaults
    (setup_subfaults (geometry [] [] 5 5) "geodetic" "uparr" [] false).1
    "geodetic" "uparr" [] false
  = (geometry [] [] 5 5, inr tt).
Proof. repeat split. Qed.

(** ** The rake of the extended sources *)

Lemma setup_subfaults_loop_keeps ext_sources :
  forall fg datatype component i fg',
  setup_subfaults_loop fg datatype component i ext_sources false
  = (fg', inr tt) ->
  forall key v, _ext_sources fg !! key = Some v ->
    _ext_sources fg' !! key = Some v.
Proof.
  induction ext_sources as [|source rest IH];
    intros fg datatype component i fg' Hrun key v Hkey.
  - simpl in Hrun. by inversion Hrun; subst fg'.
  - cbn [setup_subfaults_loop] in Hrun.
    destruct (get_subfault_key fg i (Some datatype) (Some component))
      as [e|k]; [discriminate|].
    rewrite orb_false_r in Hrun.
    destruct (bool_decide (_ext_sources fg !! k = None)) eqn:Hk;
      [|discriminate].
    apply bool_decide_eq_true_1 in Hk.
    eapply IH; [exact Hrun|]. cbn [store _ext_sources].
    rewrite lookup_insert_ne; [done|]. intros ->. congruence.
Qed.

Section Rake.

Variable extent_source : Source -> Q -> Q -> Q -> Q -> result Source.
Variable get_n_patches : Source -> Q -> string -> result Z.
Variable sources : list Source.
Variables ew el pw_m pl_m : Q.

Hypothesis extent_source_rake : forall s a b c d s',
  extent_source s a b c d = inr s' ->
  (RectangularSource.rake s' == RectangularSource.rake s)%Q.

(** The rake of the extended source at position [i] is the rake of the
    component plus the rakes of the sources up to and with [i]. *)
Lemma extend_sources_rake l : forall p exts,
  extend_sources extent_source get_n_patches ew el pw_m pl_m l p
  = inr exts ->
  length exts = length l /\
  forall (i : nat) e, exts !! i = Some e ->
    (RectangularSource.rake e
     == pm_rake p + sumQ (RectangularSource.rake <$> take (S i) l))%Q.
Proof.
  induction l as [|source rest IH]; intros p exts H.
  - simpl in H. inversion H; subst exts. split; [done|]. by intros [|i].
  - cbn [extend_sources] in H.
    returned H as ext Hext. returned H as npl Hnpl.
    returned H as npw Hnpw. returned H as exts' Hrest.
    inversion H; subst exts.
    apply IH in Hrest as [Hlen Hrake]. split; [simpl; by rewrite Hlen|].
    intros [|i] e He.
    + inversion He; subst e.
      rewrite (extent_source_rake _ _ _ _ _ _ Hext).
      rewrite firstn_cons, take_0.
      cbn [update RectangularSource.rake pm_rake fmap list_fmap sumQ
           foldr]. ring.
    + rewrite (Hrake i e He). rewrite (firstn_cons (S i)).
      cbn [pm_rake fmap list_fmap sumQ foldr]. unfold sumQ. ring.
Qed.

Lemma setup_components_registered varnames :
  forall fault datatype fault',
  setup_components extent_source get_n_patches sources ew el pw_m pl_m
    fault datatype varnames = inr fault' ->
  (forall key v, _ext_sources fault !! key = Some v ->
     _ext_sources fault' !! key = Some v) /\
  (forall var p, var ∈ varnames -> slip_directions var = inr p ->
     exists exts,
       extend_sources extent_source get_n_patches ew el pw_m pl_m
         sources p = inr exts /\
       Z.of_nat (length exts) = nsubfaults fault /\
       forall (j : nat) s, exts !! j = Some s ->
         _ext_sources fault' !! subfault_key datatype var (Z.of_nat j)
         = Some s).
Proof.
  induction varnames as [|var0 rest IH]; intros fault datatype fault' H.
  - simpl in H. inversion H; subst fault'. split; [done|].
    intros var p Hin. by apply elem_of_nil in Hin.
  - cbn [setup_components] in H.
    destruct (slip_directions var0) as [e|p0] eqn:Hp0; [discriminate|].
    cbn [rbind] in H.
    destruct (extend_sources _ _ _ _ _ _ sources p0) as [e|exts0] eqn:Hx;
      [discriminate|]. cbn [rbind] in H.
    destruct (setup_subfaults fault datatype var0 exts0 false)
      as [fault1 [e|[]]] eqn:Hset; [discriminate|].
    pose proof (setup_subfaults_frame fault datatype var0 exts0 false)
      as Hframe. rewrite Hset in Hframe. cbn [fst] in Hframe.
    destruct Hframe as (_ & _ & Hfo).
    destruct (setup_subfaults_returns _ _ _ _ _ _ Hset)
      as (Hd & Hc & Hlen).
    rewrite setup_subfaults_checked in Hset by done.
    apply IH in H as [Hkeep Hreg]. split.
    + intros key v Hkey. apply Hkeep.
      by eapply setup_subfaults_loop_keeps.
    + intros var p Hin Hp. apply elem_of_cons in Hin as [->|Hin].
      * rewrite Hp0 in Hp. inversion Hp; subst p0.
        exists exts0. split; [done|]. split; [done|].
        intros j s Hj. apply Hkeep.
        apply setup_subfaults_loop_stores in Hset as [Hin _];
          [|done|done|lia].
        by apply (Hin j s).
      * destruct (Hreg var p Hin Hp) as (exts & Hx' & Hlen' & Hl).
        exists exts. split; [done|]. split; [|done].
        unfold nsubfaults in *. by rewrite <- Hfo.
Qed.

Lemma setup_datatypes_registered dts : forall fault varnames fault',
  setup_datatypes extent_source get_n_patches sources ew el pw_m pl_m
    fault dts varnames = inr fault' ->
  (forall key v, _ext_sources fault !! key = Some v ->
     _ext_sources fault' !! key = Some v) /\
  (forall datatype var p, datatype ∈ dts -> var ∈ varnames ->
     slip_directions var = inr p ->
     exists exts,
       extend_sources extent_source get_n_patches ew el pw_m pl_m
         sources p = inr exts /\
       Z.of_nat (length exts) = nsubfaults fault /\
       forall (j : nat) s, exts !! j = Some s ->
         _ext_sources fault' !! subfault_key datatype var (Z.of_nat j)
         = Some s).
Proof.
  induction dts as [|dt0 rest IH]; intros fault varnames fault' H.
  - simpl in H. inversion H; subst fault'. split; [done|].
    intros datatype var p Hin. by apply elem_of_nil in Hin.
  - cbn [setup_datatypes] in H.
    destruct (setup_components _ _ _ _ _ _ _ fault dt0 varnames)
      as [e|fault1] eqn:Hc; [discriminate|]. cbn [rbind] in H.
    pose proof (setup_components_frame _ _ _ _ _ _ _ _ _ _ _ Hc)
      as (_ & _ & Hfo).
    apply setup_components_registered in Hc as [Hkeep1 Hreg1].
    apply IH in H as [Hkeep Hreg]. split; [by auto|].
    intros datatype var p Hin Hv Hp.
    apply elem_of_cons in Hin as [->|Hin].
    + destruct (Hreg1 var p Hv Hp) as (exts & Hx & Hlen & Hl).
      exists exts. split; [done|]. split; [done|]. by auto.
    + destruct (Hreg datatype var p Hin Hv Hp) as (exts & Hx & Hlen & Hl).
      exists exts. split; [done|]. split; [|done].
      unfold nsubfaults in *. by rewrite <- Hfo.
Qed.

End Rake.

(** C4, what the code does.  In the geometry [discretize_sources]
    returns, the extended plane registered for a datatype, a slip
    component and subfault [i] has the rake offset of the component plus
    the rakes of all the source planes up to and with plane [i], for an
    [extent_source] that keeps the rake: the rakes of the planes before
    [i] are carried over. *)
Theorem rake_carried_between_sources
    (extent_source : Source -> Q -> Q -> Q -> Q -> result Source)
    (get_n_patches : Source -> Q -> string -> result Z)
    (sources : list Source) (ew el patch_width patch_length : Q)
    (dts varnames : list string) (fg : FaultGeometry)
    (datatype var : string) (p : ParamMod) (i : nat) (source : Source) :
  (forall s a b c d s', extent_source s a b c d = inr s' ->
     (RectangularSource.rake s' == RectangularSource.rake s)%Q) ->
  discretize_sources extent_source get_n_patches sources ew el
    patch_width patch_length dts varnames = inr fg ->
  datatype ∈ dts -> var ∈ varnames -> slip_directions var = inr p ->
  sources !! i = Some source ->
  exists s,
    get_subfault fg (Z.of_nat i) (Some datatype) (Some var) = inr s /\
    (RectangularSource.rake s
     == pm_rake p + sumQ (RectangularSource.rake <$> take (S i) sources))%Q.
Proof.
  intros Hrake H Hd Hv Hp Hi. unfold discretize_sources in H.
  destruct (bool_decide ("seismic" ∈ dts) && negb _); [discriminate|].
  destruct (bool_decide ("seismic" ∈ dts) && _); [discriminate|].
  cbv zeta in H.
  returned H as [npls npws] Hcount. returned H as fo Hinit.
  pose proof (setup_datatypes_frame _ _ _ _ _ _ _ _ _ _ _ H)
    as (Hfd & Hfc & Hfo).
  apply setup_datatypes_registered in H as [_ Hreg].
  destruct (Hreg datatype var p Hd Hv Hp) as (exts & Hx & Hlen & Hl).
  apply (extend_sources_rake _ _ _ _ _ _ Hrake) in Hx as [Hlen' Hr].
  destruct (lookup_lt_is_Some_2 exts i) as [s Hs].
  { rewrite Hlen'. by eapply lookup_lt_Some. }
  exists s. split; [|by apply Hr].
  apply get_subfault_stored; [by rewrite Hfd|by rewrite Hfc| |by apply Hl].
  apply lookup_lt_Some in Hs. unfold nsubfaults in *. rewrite Hfo. lia.
Qed.

Lemma extent_source_padded_rake s a b c d s' :
  extent_source_padded s a b c d = inr s' ->
  (RectangularSource.rake s' == RectangularSource.rake s)%Q.
Proof.
  unfold extent_source_padded. destruct (ceil_div _ d); [discriminate|].
  cbn [rbind]. destruct (ceil_div _ c); [discriminate|]. cbn [rbind].
  intros H. by inversion H.
Qed.

Lemma rake_carried_between_sources_witness :
  exists fg s,
    discretize_sources extent_source_padded get_n_patches_ceil
      [plane_a; plane_b] (1 # 10) (1 # 10) 5 5 ["geodetic"] ["uparr"]
    = inr fg /\
    get_subfault fg 1 (Some "geodetic") (Some "uparr") = inr s /\
    (RectangularSource.rake s == 30)%Q /\
    ~ (RectangularSource.rake s == 0 + RectangularSource.rake plane_b)%Q.
Proof.
  destruct (discretize_sources extent_source_padded get_n_patches_ceil
              [plane_a; plane_b] (1 # 10) (1 # 10) 5 5 ["geodetic"]
              ["uparr"]) as [e|fg] eqn:E.
  - vm_compute in E. discriminate E.
  - destruct (rake_carried_between_sources extent_source_padded
                get_n_patches_ceil [plane_a; plane_b] (1 # 10) (1 # 10)
                5 5 ["geodetic"] ["uparr"] fg "geodetic" "uparr"
                (mk_ParamMod 1 0 None) 1 plane_b
                extent_source_padded_rake E) as (s & Hs & Hr).
    + apply list_elem_of_here.
    + apply list_elem_of_here.
    + reflexivity.
    + reflexivity.
    + exists fg, s. split; [reflexivity|]. split; [exact Hs|].
      split; [rewrite Hr; reflexivity|].
      rewrite Hr. discriminate.
Defined.

(** * Further properties of the code *)

(** ** Indexing of subfaults and cells *)

Lemma py_index_wraps n i : - n <= i < n -> py_index n i = inr (i mod n).
Proof.
  intros H. unfold py_index.
  destruct (0 <=? i) eqn:E1; destruct (i <? n) eqn:E2; cbn [andb];
    try lia.
  - by rewrite Z.mod_small by lia.
  - destruct (- n <=? i) eqn:E3; destruct (i <? 0) eqn:E4; cbn [andb];
      try lia.
    f_equal. rewrite <- (Z.mod_add i 1 n) by lia.
    rewrite Z.mod_small; lia.
Qed.

Lemma py_index_outside n i : i < - n \/ n <= i -> py_index n i = inl IndexError.
Proof.
  intros H. unfold py_index.
  destruct (0 <=? i) eqn:E1; destruct (i <? n) eqn:E2; cbn [andb];
    try lia;
    destruct (- n <=? i) eqn:E3; destruct (i <? 0) eqn:E4; cbn [andb];
    try lia; done.
Qed.

Lemma py_getitem_wraps {A} (l : list A) i :
  - Z.of_nat (length l) <= i < Z.of_nat (length l) ->
  exists a, l !! Z.to_nat (i mod Z.of_nat (length l)) = Some a /\
    py_getitem l i = inr a.
Proof.
  intros H. unfold py_getitem. rewrite py_index_wraps by done. cbn [rbind].
  pose proof (Z.mod_pos_bound i (Z.of_nat (length l)) ltac:(lia)).
  destruct (l !! Z.to_nat (i mod Z.of_nat (length l))) as [a|] eqn:E.
  - by exists a.
  - apply lookup_ge_None in E. lia.
Qed.

Lemma py_getitem_outside {A} (l : list A) i :
  i < - Z.of_nat (length l) \/ Z.of_nat (length l) <= i ->
  py_getitem l i = inl IndexError.
Proof.
  intros H. unfold py_getitem. by rewrite py_index_outside.
Qed.

Lemma py_getitem_fmap {A B} (f : A -> B) (l : list A) i :
  py_getitem (f <$> l) i
  = match py_getitem l i with
    | inl e => inl e
    | inr a => inr (f a)
    end.
Proof.
  unfold py_getitem. rewrite length_fmap.
  destruct (py_index (Z.of_nat (length l)) i) as [e|j]; [done|].
  cbn [rbind]. rewrite list_lookup_fmap.
  by destruct (l !! Z.to_nat j).
Qed.

(** What a run of the loop of [FaultOrdering.__init__] that raises
    nothing returns, for any patch numbers. *)
Lemma FaultOrdering_loop_returns l : forall dim count vm sm dim' vm' sm',
  FaultOrdering_loop l dim count vm sm = inr (dim', vm', sm') ->
  length vm' = (length vm + length l)%nat /\
  dim' = dim + sumZ (patch_counts l) /\
  (sm = PatchMap.indexmap <$> vm -> sm' = PatchMap.indexmap <$> vm').
Proof.
  induction l as [|[npl npw] l IH]; intros dim count vm sm dim' vm' sm' H.
  - simpl in H. inversion H; subst. simpl. split; [lia|]. split; [lia|done].
  - cbn [FaultOrdering_loop] in H.
    returned H as indexes Hre.
    apply IH in H as (Hlen & Hdim & Hsm).
    rewrite length_app in Hlen. simpl in *. split; [lia|]. split; [lia|].
    intros ->. apply Hsm. by rewrite fmap_app.
Qed.

Lemma FaultOrdering_init_returns npls npws pss psd fo :
  FaultOrdering_init npls npws pss psd = inr fo ->
  length (vmap fo) = length (zip npls npws) /\
  npatches fo = sumZ (patch_counts (zip npls npws)) /\
  smap fo = PatchMap.indexmap <$> vmap fo.
Proof.
  unfold FaultOrdering_init. intros H.
  returned H as [[dim vm] sm] Hloop. inversion H; subst fo. simpl.
  apply FaultOrdering_loop_returns in Hloop as (Hlen & Hdim & Hsm).
  simpl in *. split; [done|]. split; [lia|]. by apply Hsm.
Qed.

(** X2.  The subfault accessors split the indices in three ranges.  An
    index of [nsubfaults] or more raises the TypeError 'Subfault with
    index ... not defined!' in [get_patch_indexes] and
    [get_subfault_discretization]; an index below [-nsubfaults] passes
    that check and raises IndexError; an index in between returns the
    slice and the shape of subfault [index mod nsubfaults].  [patchmap]
    has no check of its own and raises IndexError on both sides. *)
Theorem subfault_index_ranges (fg : FaultGeometry) (index : Z) :
  (nsubfaults fg <= index ->
     get_patch_indexes fg index = inl (TypeError SubfaultNotDefined) /\
     get_subfault_discretization fg index
     = inl (TypeError SubfaultNotDefined)) /\
  (index < - nsubfaults fg ->
     get_patch_indexes fg index = inl IndexError /\
     get_subfault_discretization fg index = inl IndexError) /\
  (nsubfaults fg <= index \/ index < - nsubfaults fg ->
     forall dipidx strikeidx,
       patchmap fg index dipidx strikeidx = inl IndexError) /\
  (- nsubfaults fg <= index < nsubfaults fg ->
     exists pm,
       vmap (ordering fg) !! Z.to_nat (index mod nsubfaults fg) = Some pm /\
       get_patch_indexes fg index = inr (PatchMap.slc pm) /\
       get_subfault_discretization fg index = inr (PatchMap.shp pm)).
Proof.
  unfold get_patch_indexes, get_subfault_discretization, patchmap,
    _check_index, nsubfaults.
  set (n := Z.of_nat (length (vmap (ordering fg)))).
  split; [|split; [|split]].
  - intros H. destruct (index >? n - 1) eqn:E; [done|lia].
  - intros H. destruct (index >? n - 1) eqn:E; [lia|]. cbn [rbind].
    rewrite py_getitem_outside by (fold n; lia). done.
  - intros H dipidx strikeidx.
    rewrite py_getitem_outside by (fold n; lia). done.
  - intros H. destruct (index >? n - 1) eqn:E; [lia|]. cbn [rbind].
    destruct (py_getitem_wraps (vmap (ordering fg)) index) as (pm & Hpm & ->);
      [fold n; lia|].
    exists pm. done.
Qed.

Lemma patchmap_indexmap (fg : FaultGeometry) npls npws pss psd
    (i : nat) n_strike n_dip d s :
  Forall (fun n => 0 <= n) npls -> Forall (fun n => 0 <= n) npws ->
  FaultOrdering_init npls npws pss psd = inr (ordering fg) ->
  zip npls npws !! i = Some (n_strike, n_dip) ->
  patchmap fg (Z.of_nat i) d s
  = nd_getitem
      (mk_ndarray (n_dip, n_strike) (arange_int16 (n_strike * n_dip))) d s.
Proof.
  intros Hl Hw Hfo Hi.
  rewrite FaultOrdering_init_layout in Hfo by done.
  inversion Hfo as [Hfo']. unfold patchmap. rewrite <- Hfo'. cbn [vmap].
  destruct (layout (zip npls npws) 0 0 !! i) as [pm|] eqn:Hpm.
  - rewrite (py_getitem_lookup _ _ _ Hpm). cbn [rbind].
    apply lookup_layout in Hpm as (a & b & Hi' & ->).
    rewrite Hi in Hi'. by inversion Hi'; subst a b.
  - apply lookup_ge_None in Hpm. rewrite length_layout in Hpm.
    apply lookup_lt_Some in Hi. lia.
Qed.

(** X3.  [patchmap] does not clamp the cell indices.  On a subfault of
    shape [(n_dip, n_strike)], a dip index in [-n_dip .. -1] or a strike
    index in [-n_strike .. -1] counts from the end of its axis, so the
    entry read is the one of the cell
    [(dipidx mod n_dip, strikeidx mod n_strike)]; any index outside
    [-n .. n-1] of its axis raises IndexError. *)
Theorem patchmap_cell_ranges (fg : FaultGeometry) npls npws pss psd
    (i : nat) n_strike n_dip d s :
  Forall (fun n => 0 <= n) npls -> Forall (fun n => 0 <= n) npws ->
  FaultOrdering_init npls npws pss psd = inr (ordering fg) ->
  zip npls npws !! i = Some (n_strike, n_dip) ->
  (- n_dip <= d < n_dip -> - n_strike <= s < n_strike ->
     patchmap fg (Z.of_nat i) d s
     = patchmap fg (Z.of_nat i) (d mod n_dip) (s mod n_strike) /\
     patchmap fg (Z.of_nat i) d s
     = inr (wrap16 (d mod n_dip * n_strike + s mod n_strike))) /\
  (d < - n_dip \/ n_dip <= d \/ s < - n_strike \/ n_strike <= s ->
     patchmap fg (Z.of_nat i) d s = inl IndexError).
Proof.
  intros Hl Hw Hfo Hi.
  assert (0 <= n_strike /\ 0 <= n_dip) as [Hns Hnd].
  { pose proof (zip_nonneg _ _ Hl Hw) as Hz.
    rewrite Forall_lookup in Hz. apply (Hz i _ Hi). }
  split.
  - intros Hd Hs.
    pose proof (Z.mod_pos_bound d n_dip ltac:(lia)).
    pose proof (Z.mod_pos_bound s n_strike ltac:(lia)).
    rewrite (patchmap_entry fg npls npws pss psd i n_strike n_dip
               (d mod n_dip) (s mod n_strike)) by done.
    assert (patchmap fg (Z.of_nat i) d s
            = inr (wrap16 (d mod n_dip * n_strike + s mod n_strike)));
      [|done].
    rewrite (patchmap_indexmap fg npls npws pss psd i n_strike n_dip)
      by done.
    unfold nd_getitem. cbn [nd_shape nd_data].
    rewrite !py_index_wraps by done. cbn [rbind].
    rewrite lookup_arange_int16 by nia. by rewrite Z2Nat.id by nia.
  - intros H.
    rewrite (patchmap_indexmap fg npls npws pss psd i n_strike n_dip)
      by done.
    unfold nd_getitem. cbn [nd_shape nd_data].
    destruct (decide (- n_dip <= d < n_dip)) as [Hd|Hd].
    + rewrite (py_index_wraps n_dip d) by done. cbn [rbind].
      rewrite py_index_outside by lia. done.
    + rewrite py_index_outside by lia. done.
Qed.

Lemma patchmap_cell_ranges_witness :
  patchmap (geometry [3; 2] [2; 4] 5 5) 0 (- 1) (- 3) = inr 3 /\
  patchmap (geometry [3; 2] [2; 4] 5 5) 0 2 0 = inl IndexError.
Proof.
  destruct (patchmap_cell_ranges (geometry [3; 2] [2; 4] 5 5)
              [3; 2] [2; 4] 5 5 0 3 2 (- 1) (- 3)) as [H _];
    [all_nonneg|all_nonneg|reflexivity|reflexivity|].
  destruct (patchmap_cell_ranges (geometry [3; 2] [2; 4] 5 5)
              [3; 2] [2; 4] 5 5 0 3 2 2 0) as [_ H'];
    [all_nonneg|all_nonneg|reflexivity|reflexivity|].
  split.
  - exact (proj2 (H ltac:(lia) ltac:(lia))).
  - apply H'. lia.
Defined.

(** ** The velocities handed to [get_subfault_starttimes] *)

Lemma reshape_sized {A} (buf : list A) a b :
  0 <= a -> 0 <= b ->
  reshape buf (a, b)
  = if a * b =? Z.of_nat (length buf) then inr (mk_ndarray (a, b) buf)
    else inl (ValueError CannotReshape).
Proof.
  intros Ha Hb. unfold reshape.
  destruct (a <? 0) eqn:E1; [lia|]. destruct (b <? 0) eqn:E2; [lia|].
  done.
Qed.

(** X4.  For a subfault of shape [(n_dip, n_strike)],
    [get_subfault_starttimes] raises the ValueError of numpy's reshape,
    and does not reach the solver, when the number of velocities is not
    [n_dip * n_strike]; otherwise the solver gets a slowness grid of
    that shape with the entries [1 / velocity] in the order given. *)
Theorem starttimes_velocity_count
    (solver : SweepArgs -> result (ndarray Q)) (fg : FaultGeometry)
    (index : Z) (rupture_velocities : list Q)
    (nuc_dip_idx nuc_strike_idx n_dip n_strike : Z) :
  get_subfault_discretization fg index = inr (n_dip, n_strike) ->
  0 <= n_dip -> 0 <= n_strike ->
  (Z.of_nat (length rupture_velocities) <> n_dip * n_strike ->
     get_subfault_starttimes solver fg index rupture_velocities
       nuc_dip_idx nuc_strike_idx = inl (ValueError CannotReshape)) /\
  (Z.of_nat (length rupture_velocities) = n_dip * n_strike ->
     exists args,
       starttimes_call fg index rupture_velocities nuc_dip_idx
         nuc_strike_idx = inr args /\
       nd_shape (Slowness args) = (n_dip, n_strike) /\
       nd_data (Slowness args) = fdiv 1 <$> rupture_velocities /\
       (n_patch_dip args, n_patch_strike args) = (n_dip, n_strike) /\
       (nuc_y args, nuc_x args) = (nuc_dip_idx, nuc_strike_idx) /\
       get_subfault_starttimes solver fg index rupture_velocities
         nuc_dip_idx nuc_strike_idx = solver args).
Proof.
  intros Hshp Hd Hs.
  unfold get_subfault_starttimes, starttimes_call. rewrite Hshp.
  cbn [rbind]. rewrite reshape_sized by done.
  split; intros Hlen.
  - destruct (n_dip * n_strike =? _) eqn:E; [lia|done].
  - destruct (n_dip * n_strike =? _) eqn:E; [|lia]. cbn [rbind].
    eexists. split; [reflexivity|]. done.
Qed.

Lemma starttimes_velocity_count_witness :
  get_subfault_starttimes unchecked_solver (geometry [3; 2] [2; 4] 5 5) 0
    [1; 2; 3]%Q 0 0 = inl (ValueError CannotReshape).
Proof.
  apply (starttimes_velocity_count unchecked_solver
           (geometry [3; 2] [2; 4] 5 5) 0 [1; 2; 3]%Q 0 0 2 3).
  - reflexivity.
  - lia.
  - lia.
  - simpl. lia.
Defined.

(** ** Storing and reading back extended sources *)

(** X8.  A call of [setup_subfaults] that returns, with [replace] set or
    not, leaves datatypes, components and ordering as they were; after
    it [get_subfault] returns, for each subfault index, the source
    given at that position; and every key of the store other than the
    keys of this datatype and component holds what it held before. *)
Theorem setup_subfaults_round_trip (fg fg' : FaultGeometry)
    (datatype component : string) (ext_sources : list Source)
    (replace : bool) :
  setup_subfaults fg datatype component ext_sources replace
  = (fg', inr tt) ->
  same_frame fg fg' /\
  (forall (i : nat) s, ext_sources !! i = Some s ->
     get_subfault fg' (Z.of_nat i) (Some datatype) (Some component)
     = inr s) /\
  (forall key,
     (forall j : nat, (j < length ext_sources)%nat ->
        key <> subfault_key datatype component (Z.of_nat j)) ->
     _ext_sources fg' !! key = _ext_sources fg !! key).
Proof.
  intros Hset.
  destruct (setup_subfaults_returns _ _ _ _ _ _ Hset) as (Hd & Hc & Hlen).
  pose proof (setup_subfaults_frame fg datatype component ext_sources
                replace) as Hframe.
  rewrite Hset in Hframe. cbn [fst] in Hframe.
  rewrite setup_subfaults_checked in Hset by done.
  apply setup_subfaults_loop_stores in Hset as [Hin Hout];
    [|done|done|lia].
  split; [exact Hframe|]. destruct Hframe as (Hfd & Hfc & Hfo). split.
  - intros i s Hi.
    apply get_subfault_stored; [by rewrite Hfd|by rewrite Hfc| |].
    + apply lookup_lt_Some in Hi. unfold nsubfaults in *. rewrite Hfo. lia.
    + specialize (Hin i s Hi). by rewrite Z.add_0_l in Hin.
  - intros key Hkey. apply Hout. intros j Hj. rewrite Z.add_0_l.
    by apply Hkey.
Qed.

Lemma setup_subfaults_round_trip_witness :
  exists fg',
    setup_subfaults (geometry [3; 2] [2; 4] 5 5) "geodetic" "uparr"
      [plane_a; plane_b] false = (fg', inr tt) /\
    get_subfault fg' 1 (Some "geodetic") (Some "uparr") = inr plane_b.
Proof.
  eexists. split; [reflexivity|].
  destruct (setup_subfaults_round_trip (geometry [3; 2] [2; 4] 5 5) _
              "geodetic" "uparr" [plane_a; plane_b] false eq_refl)
    as (_ & H & _).
  exact (H 1%nat plane_b eq_refl).
Defined.

Lemma underscore_split (s1 : string) : forall s2 r1 r2,
  underscore_free s1 = true -> underscore_free s2 = true ->
  s1 +:+ "_" +:+ r1 = s2 +:+ "_" +:+ r2 ->
  s1 = s2 /\ r1 = r2.
Proof.
  induction s1 as [|c1 s1 IH]; intros [|c2 s2] r1 r2 H1 H2 Heq;
    cbn [String.append] in Heq; cbn [underscore_free] in H1, H2.
  - by inversion Heq.
  - inversion Heq; subst c2. by rewrite String.eqb_refl in H2.
  - inversion Heq; subst c1. by rewrite String.eqb_refl in H1.
  - inversion Heq; subst c2.
    apply andb_true_iff in H1 as [_ H1]. apply andb_true_iff in H2 as [_ H2].
    destruct (IH s2 r1 r2 H1 H2) as [-> ->]; done.
Qed.

(** Names without underscores give every triple of datatype, component
    and index a key of its own. *)
Lemma subfault_key_inj_names dt c i dt' c' i' :
  underscore_free dt = true -> underscore_free c = true ->
  underscore_free dt' = true -> underscore_free c' = true ->
  subfault_key dt c i = subfault_key dt' c' i' ->
  dt = dt' /\ c = c' /\ i = i'.
Proof.
  intros Hdt Hc Hdt' Hc' Heq. unfold subfault_key in Heq.
  apply underscore_split in Heq as [-> Heq]; [|done|done].
  apply underscore_split in Heq as [-> Heq]; [|done|done].
  by apply pretty_Z_inj in Heq.
Qed.

(** X9.  When the names of datatypes and components hold no underscore,
    a call of [setup_subfaults] that returns does not touch the other
    pairs: for a datatype and a component that are not both those of
    the call, [get_subfault] gives after the call what it gave
    before. *)
Theorem setup_subfaults_other_pairs (fg fg' : FaultGeometry)
    (datatype component : string) (ext_sources : list Source)
    (replace : bool) (datatype' component' : string) (index : Z) :
  setup_subfaults fg datatype component ext_sources replace
  = (fg', inr tt) ->
  underscore_free datatype = true -> underscore_free component = true ->
  underscore_free datatype' = true -> underscore_free component' = true ->
  (datatype', component') <> (datatype, component) ->
  get_subfault fg' index (Some datatype') (Some component')
  = get_subfault fg index (Some datatype') (Some component').
Proof.
  intros Hset Hd Hc Hd' Hc' Hne.
  destruct (setup_subfaults_returns _ _ _ _ _ _ Hset) as (Hdin & Hcin & Hlen).
  pose proof (setup_subfaults_frame fg datatype component ext_sources
                replace) as Hframe.
  rewrite Hset in Hframe. cbn [fst] in Hframe.
  destruct Hframe as (Hfd & Hfc & Hfo).
  rewrite setup_subfaults_checked in Hset by done.
  apply setup_subfaults_loop_stores in Hset as [_ Hout]; [|done|done|lia].
  unfold get_subfault, get_subfault_key, _check_datatype,
    _check_component, _check_index, nsubfaults.
  cbn [_assign_datatype _assign_component rbind]. rewrite Hfd, Hfc, Hfo.
  destruct (bool_decide (datatype' ∈ datatypes fg)); [|done].
  destruct (bool_decide (component' ∈ components fg)); [|done].
  cbn [rbind]. destruct (index >? _); [done|]. cbn [rbind].
  fold (subfault_key datatype' component' index).
  rewrite Hout; [done|].
  intros j _ Heq.
  apply subfault_key_inj_names in Heq as (-> & -> & _); done.
Qed.

Lemma setup_subfaults_other_pairs_witness :
  get_subfault
    (setup_subfaults
       (setup_subfaults
          (FaultGeometry_init ["geodetic"] ["uparr"; "uperp"]
             (laid_out [2] [1] 5 5))
          "geodetic" "uparr" [plane_a] false).1
       "geodetic" "uperp" [plane_b] false).1
    0 (Some "geodetic") (Some "uparr")
  = inr plane_a.
Proof.
  set (fg1 := (setup_subfaults
                 (FaultGeometry_init ["geodetic"] ["uparr"; "uperp"]
                    (laid_out [2] [1] 5 5))
                 "geodetic" "uparr" [plane_a] false).1).
  set (fg2 := (setup_subfaults fg1 "geodetic" "uperp" [plane_b] false).1).
  assert (Hset : setup_subfaults fg1 "geodetic" "uperp" [plane_b] false
                 = (fg2, inr tt)) by reflexivity.
  rewrite (setup_subfaults_other_pairs fg1 fg2 "geodetic" "uperp"
             [plane_b] false "geodetic" "uparr" 0 Hset);
    [reflexivity|reflexivity|reflexivity|reflexivity|reflexivity|].
  intros H. inversion H.
Defined.

(** ** What [discretize_sources] returns *)

Lemma slip_directions_unknown var :
  var ∉ slip_direction_names -> slip_directions var = inl KeyError.
Proof.
  intros Hvar. unfold slip_directions.
  destruct (String.eqb var "uparr") eqn:E1;
    [apply String.eqb_eq in E1; subst var; exfalso; apply Hvar;
     unfold slip_direction_names; set_solver|].
  destruct (String.eqb var "uperp") eqn:E2;
    [apply String.eqb_eq in E2; subst var; exfalso; apply Hvar;
     unfold slip_direction_names; set_solver|].
  destruct (String.eqb var "utensile") eqn:E3;
    [apply String.eqb_eq in E3; subst var; exfalso; apply Hvar;
     unfold slip_direction_names; set_solver|].
  reflexivity.
Qed.

Lemma setup_subfaults_loop_fresh fg datatype component i source rest fg' :
  datatype ∈ datatypes fg -> component ∈ components fg ->
  i <= nsubfaults fg - 1 ->
  setup_subfaults_loop fg datatype component i (source :: rest) false
  = (fg', inr tt) ->
  _ext_sources fg !! subfault_key datatype component i = None.
Proof.
  intros Hd Hc Hi Hrun. cbn [setup_subfaults_loop] in Hrun.
  rewrite get_subfault_key_checked in Hrun by done.
  rewrite orb_false_r in Hrun.
  destruct (bool_decide _) eqn:E; [|discriminate].
  by apply bool_decide_eq_true_1 in E.
Qed.

Lemma registered_kept fg fg' datatype component ext_sources dt var :
  setup_subfaults fg datatype component ext_sources false
  = (fg', inr tt) ->
  registered fg dt var -> registered fg' dt var.
Proof.
  intros Hset [s Hs].
  destruct (setup_subfaults_returns _ _ _ _ _ _ Hset) as (Hd & Hc & Hlen).
  rewrite setup_subfaults_checked in Hset by done.
  exists s. by eapply setup_subfaults_loop_keeps.
Qed.

Section Returned.

Variable extent_source : Source -> Q -> Q -> Q -> Q -> result Source.
Variable get_n_patches : Source -> Q -> string -> result Z.
Variable sources : list Source.
Variables ew el pw_m pl_m : Q.

Lemma count_patches_length l : forall npls npws,
  count_patches extent_source ew el pw_m pl_m l = inr (npls, npws) ->
  length npls = length l /\ length npws = length l.
Proof.
  induction l as [|source rest IH]; intros npls npws H.
  - simpl in H. by inversion H.
  - cbn [count_patches] in H.
    returned H as ext Hext. returned H as npl Hnpl.
    returned H as npw Hnpw. returned H as [npls' npws'] Hrest.
    inversion H; subst. destruct (IH _ _ eq_refl) as [E1 E2].
    simpl. by rewrite E1, E2.
Qed.

Lemma extend_sources_length l : forall p exts,
  extend_sources extent_source get_n_patches ew el pw_m pl_m l p
  = inr exts ->
  length exts = length l.
Proof.
  induction l as [|source rest IH]; intros p exts H.
  - simpl in H. by inversion H.
  - cbn [extend_sources] in H.
    returned H as ext Hext. returned H as npl Hnpl.
    returned H as npw Hnpw. returned H as exts' Hrest.
    inversion H; subst. simpl. by rewrite (IH _ _ Hrest).
Qed.

Lemma setup_components_known varnames : forall fault datatype fault',
  setup_components extent_source get_n_patches sources ew el pw_m pl_m
    fault datatype varnames = inr fault' ->
  forall var, var ∈ varnames -> exists p, slip_directions var = inr p.
Proof.
  induction varnames as [|var0 rest IH]; intros fault datatype fault' H
    var Hin.
  - by apply elem_of_nil in Hin.
  - cbn [setup_components] in H.
    returned H as p0 Hp0. returned H as exts0 Hx.
    destruct (setup_subfaults fault datatype var0 exts0 false)
      as [fault1 [e|[]]]; [discriminate|].
    apply elem_of_cons in Hin as [->|Hin]; [by exists p0|].
    by eapply IH.
Qed.

(** With at least one source, a run over the components that returns
    has found none of them registered for the datatype, has met no
    component twice, and has registered them all. *)
Lemma setup_components_fresh varnames : forall fault datatype fault',
  sources <> [] ->
  setup_components extent_source get_n_patches sources ew el pw_m pl_m
    fault datatype varnames = inr fault' ->
  (forall var, var ∈ varnames -> ~ registered fault datatype var) /\
  NoDup varnames /\
  (forall var, var ∈ varnames -> registered fault' datatype var) /\
  (forall dt var, registered fault dt var -> registered fault' dt var).
Proof.
  induction varnames as [|var0 rest IH]; intros fault datatype fault'
    Hsrc H.
  - simpl in H. inversion H; subst fault'.
    split; [by intros var Hin; apply elem_of_nil in Hin|].
    split; [constructor|].
    split; [by intros var Hin; apply elem_of_nil in Hin|done].
  - cbn [setup_components] in H.
    returned H as p0 Hp0. returned H as exts0 Hx.
    destruct (setup_subfaults fault datatype var0 exts0 false)
      as [fault1 [e|[]]] eqn:Hset; [discriminate|].
    apply extend_sources_length in Hx.
    destruct exts0 as [|e0 exts0];
      [by destruct sources|].
    destruct (setup_subfaults_returns _ _ _ _ _ _ Hset)
      as (Hd & Hc & Hlen).
    pose proof (fun dt var => registered_kept _ _ _ _ _ dt var Hset)
      as Hkeep1.
    rewrite setup_subfaults_checked in Hset by done.
    assert (Hpos : 0 <= nsubfaults fault - 1)
      by (cbn [length] in Hlen; lia).
    pose proof (setup_subfaults_loop_fresh _ _ _ _ _ _ _ Hd Hc Hpos Hset)
      as Hfresh.
    apply setup_subfaults_loop_stores in Hset as [Hin _];
      [|done|done|lia].
    specialize (Hin 0%nat e0 eq_refl).
    change (0 + Z.of_nat 0) with 0 in Hin.
    destruct (IH _ _ _ Hsrc H) as (Hnot & Hnd & Hreg & Hkeep).
    assert (Hreg1 : registered fault1 datatype var0) by (by exists e0).
    split; [|split; [|split]].
    + intros var Hvar [s Hs]. apply elem_of_cons in Hvar as [->|Hvar].
      * unfold registered in *. congruence.
      * apply (Hnot var Hvar). apply Hkeep1. by exists s.
    + constructor; [|done]. intros Hvar. by apply (Hnot var0 Hvar).
    + intros var Hvar. apply elem_of_cons in Hvar as [->|Hvar]; auto.
    + auto.
Qed.

Lemma setup_datatypes_fresh dts : forall fault var0 rest fault',
  sources <> [] ->
  setup_datatypes extent_source get_n_patches sources ew el pw_m pl_m
    fault dts (var0 :: rest) = inr fault' ->
  (forall dt, dt ∈ dts -> ~ registered fault dt var0) /\
  NoDup dts /\
  (forall dt var, registered fault dt var -> registered fault' dt var) /\
  (dts <> [] -> NoDup (var0 :: rest)).
Proof.
  induction dts as [|dt0 dts IH]; intros fault var0 rest fault' Hsrc H.
  - simpl in H. inversion H; subst fault'.
    split; [by intros dt Hin; apply elem_of_nil in Hin|].
    split; [constructor|]. split; [done|done].
  - cbn [setup_datatypes] in H. returned H as fault1 Hc.
    destruct (setup_components_fresh _ _ _ _ Hsrc Hc)
      as (Hnot1 & Hnd1 & Hreg1 & Hkeep1).
    destruct (IH _ _ _ _ Hsrc H) as (Hnot & Hnd & Hkeep & _).
    split; [|split; [|split]].
    + intros dt Hdt Hr. apply elem_of_cons in Hdt as [->|Hdt].
      * apply (Hnot1 var0); [apply list_elem_of_here|done].
      * apply (Hnot dt Hdt). by apply Hkeep1.
    + constructor; [|done]. intros Hdt. apply (Hnot dt0 Hdt).
      apply Hreg1. apply list_elem_of_here.
    + auto.
    + done.
Qed.

End Returned.

(** X10.  [discretize_sources] raises, and returns no geometry, when
    a name in [varnames] is not a key of [slip_directions] and there is
    a datatype to set up, whatever the sources.  The default
    [varnames], a list with the empty string, is such a case. *)
Theorem unknown_component_raises
    (extent_source : Source -> Q -> Q -> Q -> Q -> result Source)
    (get_n_patches : Source -> Q -> string -> result Z)
    (sources : list Source) (ew el patch_width patch_length : Q)
    (dts varnames : list string) (var : string) :
  dts <> [] -> var ∈ varnames -> var ∉ slip_direction_names ->
  exists e,
    discretize_sources extent_source get_n_patches sources ew el
      patch_width patch_length dts varnames = inl e.
Proof.
  intros Hdts Hvar Hunknown.
  destruct (discretize_sources extent_source get_n_patches sources ew el
              patch_width patch_length dts varnames) as [e|fg] eqn:H;
    [by exists e|exfalso].
  unfold discretize_sources in H.
  destruct (bool_decide ("seismic" ∈ dts) && negb _); [discriminate|].
  destruct (bool_decide ("seismic" ∈ dts) && _); [discriminate|].
  cbv zeta in H.
  returned H as [npls npws] Hcount. returned H as fo Hinit.
  destruct dts as [|dt0 dts]; [done|].
  cbn [setup_datatypes] in H. returned H as fault1 Hc.
  destruct (setup_components_known _ _ _ _ _ _ _ _ _ _ _ Hc var Hvar)
    as [p Hp].
  rewrite slip_directions_unknown in Hp by done. discriminate.
Qed.

Lemma unknown_component_raises_witness :
  exists e,
    discretize_sources extent_source_padded get_n_patches_ceil [plane_a]
      (1 # 10) (1 # 10) 5 5 ["geodetic"] [""]
    = inl e.
Proof.
  apply (unknown_component_raises extent_source_padded
           get_n_patches_ceil [plane_a] (1 # 10) (1 # 10) 5 5
           ["geodetic"] [""] "").
  - discriminate.
  - apply list_elem_of_here.
  - unfold slip_direction_names. intros H.
    repeat (apply elem_of_cons in H as [H|H]; [discriminate H|]).
    by apply elem_of_nil in H.
Defined.

(** X11.  When [discretize_sources] returns a geometry for at least one
    source, no datatype was given twice (if there is a component) and
    no component was given twice (if there is a datatype): the second
    registration of a pair raises 'Subfault already specified in
    geometry!'. *)
Theorem discretize_sources_no_duplicates
    (extent_source : Source -> Q -> Q -> Q -> Q -> result Source)
    (get_n_patches : Source -> Q -> string -> result Z)
    (sources : list Source) (ew el patch_width patch_length : Q)
    (dts varnames : list string) (fg : FaultGeometry) :
  discretize_sources extent_source get_n_patches sources ew el
    patch_width patch_length dts varnames = inr fg ->
  sources <> [] ->
  (varnames <> [] -> NoDup dts) /\ (dts <> [] -> NoDup varnames).
Proof.
  intros H Hsrc. unfold discretize_sources in H.
  destruct (bool_decide ("seismic" ∈ dts) && negb _); [discriminate|].
  destruct (bool_decide ("seismic" ∈ dts) && _); [discriminate|].
  cbv zeta in H.
  returned H as [npls npws] Hcount. returned H as fo Hinit.
  destruct varnames as [|var0 rest].
  - split; [done|]. intros _. constructor.
  - destruct (setup_datatypes_fresh _ _ _ _ _ _ _ _ _ _ _ _ Hsrc H)
      as (_ & Hnd & _ & Hvars).
    split; [done|exact Hvars].
Qed.

Lemma discretize_sources_no_duplicates_witness :
  NoDup ["geodetic"; "seismic"] /\ NoDup ["uparr"; "uperp"].
Proof.
  destruct (discretize_sources extent_source_padded get_n_patches_ceil
              [plane_a] (1 # 10) (1 # 10) 5 5 ["geodetic"; "seismic"]
              ["uparr"; "uperp"]) as [e|fg] eqn:E.
  - vm_compute in E. discriminate E.
  - destruct (discretize_sources_no_duplicates extent_source_padded
                get_n_patches_ceil [plane_a] (1 # 10) (1 # 10) 5 5
                ["geodetic"; "seismic"] ["uparr"; "uperp"] fg E)
      as [H1 H2]; [discriminate|].
    split; [apply H1; discriminate|apply H2; discriminate].
Defined.

(** X12.  A geometry [discretize_sources] returns has the datatypes and
    components given, one subfault per source, and an extended source
    for every datatype, every component and every subfault index from 0
    to the number of sources: [get_subfault] returns for each of
    them. *)
Theorem discretize_sources_configured
    (extent_source : Source -> Q -> Q -> Q -> Q -> result Source)
    (get_n_patches : Source -> Q -> string -> result Z)
    (sources : list Source) (ew el patch_width patch_length : Q)
    (dts varnames : list string) (fg : FaultGeometry) :
  discretize_sources extent_source get_n_patches sources ew el
    patch_width patch_length dts varnames = inr fg ->
  datatypes fg = dts /\ components fg = varnames /\
  nsubfaults fg = Z.of_nat (length sources) /\
  (patch_size_strike (ordering fg), patch_size_dip (ordering fg))
  = (patch_length, patch_width) /\
  forall datatype var index,
    datatype ∈ dts -> var ∈ varnames ->
    0 <= index < Z.of_nat (length sources) ->
    exists s, get_subfault fg index (Some datatype) (Some var) = inr s.
Proof.
  intros H. unfold discretize_sources in H.
  destruct (bool_decide ("seismic" ∈ dts) && negb _); [discriminate|].
  destruct (bool_decide ("seismic" ∈ dts) && _); [discriminate|].
  cbv zeta in H.
  returned H as [npls npws] Hcount. returned H as fo Hinit.
  apply count_patches_length in Hcount as [Hnl Hnw].
  pose proof (FaultOrdering_init_sizes _ _ _ _ _ Hinit) as [Hps Hpd].
  apply FaultOrdering_init_returns in Hinit as (Hlen & _ & _).
  rewrite length_zip, Hnl, Hnw, Nat.min_id in Hlen.
  pose proof (setup_datatypes_frame _ _ _ _ _ _ _ _ _ _ _ H)
    as (Hfd & Hfc & Hfo).
  cbn [FaultGeometry_init datatypes components ordering] in Hfd, Hfc, Hfo.
  assert (Hn : nsubfaults fg = Z.of_nat (length sources))
    by (unfold nsubfaults; by rewrite Hfo, Hlen).
  split; [done|]. split; [done|]. split; [done|].
  split; [by rewrite Hfo, Hps, Hpd|].
  intros datatype var index Hd Hv Hi.
  assert (Hknown : exists p, slip_directions var = inr p).
  { destruct dts as [|dt0 dts']; [by apply elem_of_nil in Hd|].
    cbn [setup_datatypes] in H.
    destruct (setup_components extent_source get_n_patches sources ew el
                (patch_width * km) (patch_length * km)
                (FaultGeometry_init (dt0 :: dts') varnames fo) dt0
                varnames) as [e|fault1] eqn:Hc; [discriminate|].
    by eapply setup_components_known. }
  destruct Hknown as [p Hp].
  apply setup_datatypes_registered in H as [_ Hreg].
  destruct (Hreg datatype var p Hd Hv Hp) as (exts & Hx & Hlen' & Hl).
  apply extend_sources_length in Hx.
  destruct (lookup_lt_is_Some_2 exts (Z.to_nat index)) as [s Hs];
    [lia|].
  exists s. apply get_subfault_stored;
    [by rewrite Hfd|by rewrite Hfc|lia|].
  specialize (Hl _ _ Hs). by rewrite Z2Nat.id in Hl by lia.
Qed.

Lemma discretize_sources_configured_witness :
  exists fg,
    discretize_sources extent_source_padded get_n_patches_ceil
      [plane_a; plane_b] (1 # 10) (1 # 10) 5 5 ["geodetic"]
      ["uparr"; "uperp"] = inr fg /\
    nsubfaults fg = 2.
Proof.
  destruct (discretize_sources extent_source_padded get_n_patches_ceil
              [plane_a; plane_b] (1 # 10) (1 # 10) 5 5 ["geodetic"]
              ["uparr"; "uperp"]) as [e|fg] eqn:E.
  - vm_compute in E. discriminate E.
  - exists fg. split; [reflexivity|].
    destruct (discretize_sources_configured extent_source_padded
                get_n_patches_ceil [plane_a; plane_b] (1 # 10) (1 # 10)
                5 5 ["geodetic"] ["uparr"; "uperp"] fg E)
      as (_ & _ & Hn & _).
    exact Hn.
Defined.

(** ** The patches of all subfaults and the flat vector *)

Lemma sumZ_cons (x : Z) (l : list Z) : sumZ (x :: l) = x + sumZ l.
Proof. reflexivity. Qed.

Lemma sumZ_app (l1 l2 : list Z) : sumZ (l1 ++ l2) = sumZ l1 + sumZ l2.
Proof. induction l1 as [|x l1 IH]; simpl; [done|]. rewrite IH. lia. Qed.

Lemma length_concat_sumZ {A} (parts : list (list A)) :
  Z.of_nat (length (concat parts))
  = sumZ ((fun ps => Z.of_nat (length ps)) <$> parts).
Proof.
  induction parts as [|p0 parts IH]; [done|].
  cbn [concat fmap list_fmap]. rewrite length_app, sumZ_cons. lia.
Qed.

(** In a concatenation, the part at position [i] starts after the parts
    before it. *)
Lemma concat_part {A} (parts : list (list A)) : forall (i : nat) part,
  parts !! i = Some part ->
  take (length part)
    (drop (Z.to_nat (sumZ ((fun ps => Z.of_nat (length ps))
                             <$> take i parts)))
       (concat parts))
  = part.
Proof.
  induction parts as [|p0 parts IH]; intros i part Hi; [done|].
  destruct i as [|i]; simpl in Hi.
  - inversion Hi; subst p0.
    cbn [take firstn fmap list_fmap sumZ foldr concat].
    change (Z.to_nat 0) with 0%nat. rewrite drop_0.
    apply take_app_length.
  - cbn [take firstn fmap list_fmap sumZ foldr concat].
    fold (sumZ ((fun ps : list A => Z.of_nat (length ps))
                  <$> take i parts)).
    assert (Hnn : 0 <= sumZ ((fun ps : list A => Z.of_nat (length ps))
                               <$> take i parts)).
    { rewrite <- length_concat_sumZ. lia. }
    rewrite Z2Nat.inj_add by lia. rewrite Nat2Z.id.
    rewrite drop_app_add'; [|done]. by apply IH.
Qed.

Section AllPatches.

Variable Patch : Type.
Variable patches : Source -> Z -> Z -> string -> result (list Patch).

Lemma get_all_patches_loop_concat fg datatype component indexes :
  forall acc all,
  get_all_patches_loop Patch patches fg datatype component indexes acc
  = inr all ->
  exists parts,
    Forall2 (fun i ps =>
               get_subfault_patches Patch patches fg i (Some datatype)
                 (Some component) = inr ps) indexes parts /\
    all = acc ++ concat parts.
Proof.
  induction indexes as [|i rest IH]; intros acc all H.
  - simpl in H. inversion H; subst all. exists []. split; [constructor|].
    by rewrite app_nil_r.
  - cbn [get_all_patches_loop] in H. returned H as ps Hps.
    apply IH in H as (parts & Hparts & ->).
    exists (ps :: parts). split; [by constructor|].
    simpl. by rewrite <- app_assoc.
Qed.

Lemma get_subfault_patches_assigned fg index datatype component dt c :
  _assign_datatype fg datatype = inr dt ->
  _assign_component fg component = inr c ->
  get_subfault_patches Patch patches fg index datatype component
  = get_subfault_patches Patch patches fg index (Some dt) (Some c).
Proof.
  intros Hd Hc. unfold get_subfault_patches. rewrite Hd, Hc. done.
Qed.

(** The number of patches [get_subfault_patches] returns, when a source
    yields [nl * nw] patches. *)
Lemma get_subfault_patches_length fg index datatype component ps shp :
  (forall s nl nw d l, 0 <= nl -> 0 <= nw -> patches s nl nw d = inr l ->
     Z.of_nat (length l) = nl * nw) ->
  get_subfault_patches Patch patches fg index datatype component
  = inr ps ->
  get_subfault_discretization fg index = inr shp ->
  0 <= shp.1 -> 0 <= shp.2 ->
  Z.of_nat (length ps) = shp.2 * shp.1.
Proof.
  intros Hcount H Hshp Hnw Hnl. unfold get_subfault_patches in H.
  returned H as u Hu. returned H as dt Hdt. returned H as c Hc.
  returned H as subfault Hsub. rewrite Hshp in H. cbn [rbind] in H.
  destruct shp as [npw npl]. by apply Hcount in H.
Qed.

(** X13.  The list [get_all_patches] returns follows the flat parameter
    vector.  For an ordering built from non-negative patch numbers and
    sources that yield [nl * nw] patches each, the list has [npatches]
    entries, and the part of it that the slice of a subfault selects is
    the list [get_subfault_patches] returns for that subfault. *)
Theorem all_patches_follow_slices (fg : FaultGeometry)
    (npls npws : list Z) (pss psd : Q)
    (datatype component : option string) (all : list Patch) :
  Forall (fun n => 0 <= n) npls -> Forall (fun n => 0 <= n) npws ->
  FaultOrdering_init npls npws pss psd = inr (ordering fg) ->
  (forall s nl nw d l, 0 <= nl -> 0 <= nw -> patches s nl nw d = inr l ->
     Z.of_nat (length l) = nl * nw) ->
  get_all_patches Patch patches fg datatype component = inr all ->
  Z.of_nat (length all) = npatches (ordering fg) /\
  forall i : nat, (i < length (zip npls npws))%nat ->
    exists slc ps,
      get_patch_indexes fg (Z.of_nat i) = inr slc /\
      get_subfault_patches Patch patches fg (Z.of_nat i) datatype
        component = inr ps /\
      py_slice all slc = ps.
Proof.
  intros Hl Hw Hfo Hcount Hall.
  pose proof (zip_nonneg _ _ Hl Hw) as Hz.
  rewrite FaultOrdering_init_layout in Hfo by done.
  inversion Hfo as [Hfo']. clear Hfo.
  set (l := zip npls npws) in *. set (cs := patch_counts l).
  unfold get_all_patches in Hall.
  returned Hall as dt Hdt. returned Hall as c Hc.
  apply get_all_patches_loop_concat in Hall as (parts & Hparts & ->).
  cbn [app].
  assert (Hn : nsubfaults fg = Z.of_nat (length l)).
  { unfold nsubfaults. rewrite <- Hfo'. cbn [vmap].
    by rewrite length_layout. }
  assert (Hacc : forall (i : nat) npl npw, l !! i = Some (npl, npw) ->
    get_patch_indexes fg (Z.of_nat i)
    = inr (sumZ (take i cs), sumZ (take i cs) + npl * npw) /\
    get_subfault_discretization fg (Z.of_nat i) = inr (npw, npl)).
  { intros i npl npw Hi.
    destruct (layout l 0 0 !! i) as [pm|] eqn:Hpm.
    - unfold get_patch_indexes, get_subfault_discretization, _check_index.
      rewrite Hn. pose proof (lookup_lt_Some _ _ _ Hi) as Hlt.
      destruct (Z.of_nat i >? Z.of_nat (length l) - 1) eqn:E; [lia|].
      cbn [rbind]. rewrite <- Hfo'. cbn [vmap].
      rewrite (py_getitem_lookup _ _ _ Hpm). cbn [rbind].
      apply lookup_layout in Hpm as (a & b & Hi' & ->).
      cbn [PatchMap.slc PatchMap.shp]. fold cs.
      rewrite Hi in Hi'. inversion Hi'; subst a b.
      rewrite !Z.add_0_l. done.
    - apply lookup_ge_None in Hpm. rewrite length_layout in Hpm.
      apply lookup_lt_Some in Hi. lia. }
  assert (Hidx : forall i : nat, (i < length l)%nat ->
            subfault_range fg !! i = Some (Z.of_nat i)).
  { intros i Hi. unfold subfault_range. rewrite Hn, Nat2Z.id.
    rewrite list_lookup_fmap, lookup_seq_lt by done. done. }
  assert (Hplen : length parts = length l).
  { apply Forall2_length in Hparts. rewrite <- Hparts.
    unfold subfault_range. rewrite length_fmap, length_seq, Hn. lia. }
  assert (Hpart : forall (i : nat) ps, parts !! i = Some ps ->
    get_subfault_patches Patch patches fg (Z.of_nat i) (Some dt) (Some c)
    = inr ps /\ cs !! i = Some (Z.of_nat (length ps))).
  { intros i ps Hps.
    assert (Hi : (i < length l)%nat)
      by (apply lookup_lt_Some in Hps; lia).
    destruct (Forall2_lookup_r _ _ _ _ _ Hparts Hps) as (j & Hj & Hget).
    rewrite Hidx in Hj by done. inversion Hj; subst j. split; [done|].
    destruct (lookup_lt_is_Some_2 l i Hi) as [[npl npw] Hli].
    destruct (Hacc i npl npw Hli) as [_ Hshp].
    rewrite Forall_lookup in Hz. destruct (Hz i _ Hli) as [Hnl Hnw].
    rewrite (get_subfault_patches_length _ _ _ _ _ _ Hcount Hget Hshp
               Hnw Hnl).
    unfold cs, patch_counts. rewrite list_lookup_fmap, Hli. done. }
  assert (Hcs : (fun ps : list Patch => Z.of_nat (length ps)) <$> parts
                = cs).
  { apply list_eq. intros i. rewrite list_lookup_fmap.
    destruct (parts !! i) as [ps|] eqn:Hps.
    - destruct (Hpart i ps Hps) as [_ ->]. done.
    - simpl. symmetry. apply lookup_ge_None. apply lookup_ge_None in Hps.
      unfold cs, patch_counts. rewrite length_fmap. lia. }
  split.
  - rewrite length_concat_sumZ, Hcs. done.
  - intros i Hi.
    destruct (lookup_lt_is_Some_2 l i Hi) as [[npl npw] Hli].
    destruct (Hacc i npl npw Hli) as [Hslc Hshp].
    destruct (lookup_lt_is_Some_2 parts i) as [ps Hps]; [lia|].
    destruct (Hpart i ps Hps) as [Hget Hci].
    exists (sumZ (take i cs), sumZ (take i cs) + npl * npw), ps.
    split; [done|].
    split; [by rewrite (get_subfault_patches_assigned _ _ _ _ dt c)|].
    unfold py_slice. cbn [fst snd].
    assert (Hlen : npl * npw = Z.of_nat (length ps)).
    { unfold cs, patch_counts in Hci.
      rewrite list_lookup_fmap, Hli in Hci. by inversion Hci. }
    replace (sumZ (take i cs) + npl * npw - sumZ (take i cs))
      with (Z.of_nat (length ps)) by lia.
    rewrite Nat2Z.id. rewrite <- Hcs, <- fmap_take.
    by apply concat_part.
Qed.

End AllPatches.

Lemma all_patches_follow_slices_witness :
  exists all,
    get_all_patches Source copies
      (setup_subfaults (geometry [3; 2] [2; 4] 5 5) "geodetic" "uparr"
         [plane_a; plane_b] false).1 None None = inr all /\
    Z.of_nat (length all) = 14 /\
    exists slc ps,
      get_patch_indexes
        (setup_subfaults (geometry [3; 2] [2; 4] 5 5) "geodetic" "uparr"
           [plane_a; plane_b] false).1 1 = inr slc /\
      get_subfault_patches Source copies
        (setup_subfaults (geometry [3; 2] [2; 4] 5 5) "geodetic" "uparr"
           [plane_a; plane_b] false).1 1 None None = inr ps /\
      py_slice all slc = ps.
Proof.
  set (fg := (setup_subfaults (geometry [3; 2] [2; 4] 5 5) "geodetic"
                "uparr" [plane_a; plane_b] false).1).
  assert (Hfo : FaultOrdering_init [3; 2] [2; 4] 5 5 = inr (ordering fg))
    by reflexivity.
  assert (Hcount : forall s nl nw (d : string) l, 0 <= nl -> 0 <= nw ->
            copies s nl nw d = inr l -> Z.of_nat (length l) = nl * nw).
  { intros s nl nw d l Hnl Hnw Hl. inversion Hl; subst l.
    rewrite length_replicate. nia. }
  destruct (get_all_patches Source copies fg None None) as [e|all] eqn:E.
  - vm_compute in E. discriminate E.
  - exists all. split; [reflexivity|].
    destruct (all_patches_follow_slices Source copies fg [3; 2] [2; 4]
                5 5 None None all ltac:(all_nonneg) ltac:(all_nonneg)
                Hfo Hcount E) as [Hlen Hparts].
    split; [exact Hlen|].
    exact (Hparts 1%nat ltac:(simpl; lia)).
Defined.

(** ** Negative indices and [get_subfault] *)

Lemma setup_subfaults_keys fg fg' dts varnames datatype component
    ext_sources replace :
  keys_within fg dts varnames ->
  datatype ∈ dts -> component ∈ varnames ->
  setup_subfaults fg datatype component ext_sources replace
  = (fg', inr tt) ->
  keys_within fg' dts varnames.
Proof.
  intros Hinv Hd Hc Hset.
  destruct (setup_subfaults_returns _ _ _ _ _ _ Hset) as (Hdin & Hcin & Hlen).
  pose proof (setup_subfaults_frame fg datatype component ext_sources
                replace) as Hframe.
  rewrite Hset in Hframe. cbn [fst] in Hframe.
  destruct Hframe as (_ & _ & Hfo).
  assert (Hn : nsubfaults fg' = nsubfaults fg)
    by (unfold nsubfaults; by rewrite Hfo).
  rewrite setup_subfaults_checked in Hset by done.
  apply setup_subfaults_loop_stores in Hset as [_ Hout]; [|done|done|lia].
  intros key s Hkey. rewrite Hn.
  destruct (decide (key ∈ (fun j : nat =>
                             subfault_key datatype component (Z.of_nat j))
                          <$> seq 0 (length ext_sources))) as [Hin|Hnin].
  - apply list_elem_of_fmap in Hin as (j & -> & Hj).
    apply elem_of_seq in Hj.
    exists datatype, component, (Z.of_nat j). repeat split; try done; lia.
  - rewrite Hout in Hkey; [exact (Hinv key s Hkey)|].
    intros j Hj Heq. apply Hnin. apply list_elem_of_fmap.
    exists j. rewrite Z.add_0_l in Heq. split; [done|].
    apply elem_of_seq. lia.
Qed.

Section Keys.

Variable extent_source : Source -> Q -> Q -> Q -> Q -> result Source.
Variable get_n_patches : Source -> Q -> string -> result Z.
Variable sources : list Source.
Variables ew el pw_m pl_m : Q.

Lemma setup_components_keys dts all_vars varnames :
  forall fault datatype fault',
  keys_within fault dts all_vars ->
  datatype ∈ dts -> varnames ⊆ all_vars ->
  setup_components extent_source get_n_patches sources ew el pw_m pl_m
    fault datatype varnames = inr fault' ->
  keys_within fault' dts all_vars.
Proof.
  induction varnames as [|var0 rest IH]; intros fault datatype fault'
    Hinv Hd Hsub H.
  - simpl in H. by inversion H; subst fault'.
  - cbn [setup_components] in H.
    returned H as p0 Hp0. returned H as exts0 Hx.
    destruct (setup_subfaults fault datatype var0 exts0 false)
      as [fault1 [e|[]]] eqn:Hset; [discriminate|].
    assert (Hv0 : var0 ∈ all_vars) by set_solver.
    assert (Hrest : rest ⊆ all_vars) by set_solver.
    apply (IH fault1 datatype fault'); [|done|done|exact H].
    by apply (setup_subfaults_keys fault fault1 dts all_vars datatype var0
                exts0 false).
Qed.

Lemma setup_datatypes_keys all_dts dts varnames : forall fault fault',
  keys_within fault all_dts varnames ->
  dts ⊆ all_dts ->
  setup_datatypes extent_source get_n_patches sources ew el pw_m pl_m
    fault dts varnames = inr fault' ->
  keys_within fault' all_dts varnames.
Proof.
  induction dts as [|dt0 dts IH]; intros fault fault' Hinv Hsub H.
  - simpl in H. by inversion H; subst fault'.
  - cbn [setup_datatypes] in H. returned H as fault1 Hc.
    assert (Hd0 : dt0 ∈ all_dts) by set_solver.
    assert (Hrest : dts ⊆ all_dts) by set_solver.
    apply (IH fault1 fault'); [|done|exact H].
    by apply (setup_components_keys all_dts varnames varnames fault dt0
                fault1).
Qed.

End Keys.

Lemma slip_directions_underscore_free var p :
  slip_directions var = inr p -> underscore_free var = true.
Proof.
  unfold slip_directions.
  destruct (String.eqb var "uparr") eqn:E1;
    [apply String.eqb_eq in E1; by subst var|].
  destruct (String.eqb var "uperp") eqn:E2;
    [apply String.eqb_eq in E2; by subst var|].
  destruct (String.eqb var "utensile") eqn:E3;
    [apply String.eqb_eq in E3; by subst var|].
  discriminate.
Qed.

(** X14.  In a geometry [discretize_sources] returns for datatypes
    without underscores, [get_subfault] with a negative index passes
    the index check and raises 'Requested subfault not defined!' for
    every datatype and component of the geometry: no key is stored for
    a negative index, so the index does not count from the end as it
    does in [get_patch_indexes]. *)
Theorem get_subfault_negative_index
    (extent_source : Source -> Q -> Q -> Q -> Q -> result Source)
    (get_n_patches : Source -> Q -> string -> result Z)
    (sources : list Source) (ew el patch_width patch_length : Q)
    (dts varnames : list string) (fg : FaultGeometry)
    (datatype var : string) (k : Z) :
  discretize_sources extent_source get_n_patches sources ew el
    patch_width patch_length dts varnames = inr fg ->
  Forall (fun dt => underscore_free dt = true) dts ->
  datatype ∈ dts -> var ∈ varnames -> 1 <= k ->
  get_subfault fg (- k) (Some datatype) (Some var)
  = inl (FaultGeometryError RequestedSubfaultNotDefined).
Proof.
  intros H Hfree Hd Hv Hk.
  unfold discretize_sources in H.
  destruct (bool_decide ("seismic" ∈ dts) && negb _); [discriminate|].
  destruct (bool_decide ("seismic" ∈ dts) && _); [discriminate|].
  cbv zeta in H.
  returned H as [npls npws] Hcount. returned H as fo Hinit.
  pose proof (setup_datatypes_frame _ _ _ _ _ _ _ _ _ _ _ H)
    as (Hfd & Hfc & Hfo).
  cbn [FaultGeometry_init datatypes components ordering] in Hfd, Hfc, Hfo.
  assert (Hknown : forall v, v ∈ varnames -> underscore_free v = true).
  { intros v Hvin.
    destruct dts as [|dt0 dts']; [by apply elem_of_nil in Hd|].
    cbn [setup_datatypes] in H.
    destruct (setup_components extent_source get_n_patches sources ew el
                (patch_width * km) (patch_length * km)
                (FaultGeometry_init (dt0 :: dts') varnames fo) dt0
                varnames) as [e|fault1] eqn:Hc; [discriminate|].
    destruct (setup_components_known _ _ _ _ _ _ _ _ _ _ _ Hc v Hvin)
      as [p Hp].
    by eapply slip_directions_underscore_free. }
  assert (Hkeys : keys_within fg dts varnames).
  { eapply setup_datatypes_keys; [|done|exact H].
    intros key s Hkey. cbn [FaultGeometry_init _ext_sources] in Hkey.
    by rewrite lookup_empty in Hkey. }
  unfold get_subfault. cbn [_assign_datatype _assign_component rbind].
  rewrite get_subfault_key_checked;
    [|by rewrite Hfd|by rewrite Hfc|unfold nsubfaults; lia].
  cbn [rbind].
  destruct (_ext_sources fg !! subfault_key datatype var (- k))
    as [s|] eqn:Hs; [|done].
  destruct (Hkeys _ _ Hs) as (dt' & var' & j & Hd' & Hv' & Hj & Heq).
  rewrite Forall_forall in Hfree.
  apply subfault_key_inj_names in Heq as (_ & _ & Hneg);
    [lia|by apply Hfree|by apply Hknown|by apply Hfree|by apply Hknown].
Qed.

Lemma get_subfault_negative_index_witness :
  exists fg,
    discretize_sources extent_source_padded get_n_patches_ceil
      [plane_a; plane_b] (1 # 10) (1 # 10) 5 5 ["geodetic"] ["uparr"]
    = inr fg /\
    get_subfault fg (- 1) (Some "geodetic") (Some "uparr")
    = inl (FaultGeometryError RequestedSubfaultNotDefined) /\
    get_patch_indexes fg (- 1) = inr (15, 39).
Proof.
  destruct (discretize_sources extent_source_padded get_n_patches_ceil
              [plane_a; plane_b] (1 # 10) (1 # 10) 5 5 ["geodetic"]
              ["uparr"]) as [e|fg] eqn:E.
  - vm_compute in E. discriminate E.
  - exists fg. split; [reflexivity|]. split.
    + apply (get_subfault_negative_index extent_source_padded
               get_n_patches_ceil [plane_a; plane_b] (1 # 10) (1 # 10)
               5 5 ["geodetic"] ["uparr"] fg "geodetic" "uparr" 1 E).
      * repeat constructor.
      * apply list_elem_of_here.
      * apply list_elem_of_here.
      * lia.
    + vm_compute in E. inversion E; subst fg. reflexivity.
Defined.

(** ** The errors of the lookups *)

(** X15.  [get_subfault] with a datatype and a component given checks
    the datatype first, then the component, then the index, and only
    then the store: it raises the TypeError on the datatype, the one on
    the component, the one on an index above [nsubfaults - 1], or
    'Requested subfault not defined!' for a key that is not stored, in
    this order.  [get_subfault_patches] checks the index before all
    else. *)
Theorem get_subfault_error_order (Patch : Type)
    (patches : Source -> Z -> Z -> string -> result (list Patch))
    (fg : FaultGeometry) (index : Z) (datatype component : string) :
  (datatype ∉ datatypes fg ->
     get_subfault fg index (Some datatype) (Some component)
     = inl (TypeError DatatypeNotIncluded)) /\
  (datatype ∈ datatypes fg -> component ∉ components fg ->
     get_subfault fg index (Some datatype) (Some component)
     = inl (TypeError ComponentNotIncluded)) /\
  (datatype ∈ datatypes fg -> component ∈ components fg ->
     index > nsubfaults fg - 1 ->
     get_subfault fg index (Some datatype) (Some component)
     = inl (TypeError SubfaultNotDefined)) /\
  (datatype ∈ datatypes fg -> component ∈ components fg ->
     index <= nsubfaults fg - 1 ->
     _ext_sources fg !! subfault_key datatype component index = None ->
     get_subfault fg index (Some datatype) (Some component)
     = inl (FaultGeometryError RequestedSubfaultNotDefined)) /\
  (index > nsubfaults fg - 1 ->
     forall dt c,
       get_subfault_patches Patch patches fg index dt c
       = inl (TypeError SubfaultNotDefined)).
Proof.
  unfold get_subfault, get_subfault_patches, get_subfault_key,
    _check_datatype, _check_component, _check_index.
  cbn [_assign_datatype _assign_component rbind].
  split; [|split; [|split; [|split]]].
  - intros Hd. by rewrite bool_decide_eq_false_2.
  - intros Hd Hc. rewrite bool_decide_eq_true_2 by done. cbn [rbind].
    by rewrite bool_decide_eq_false_2.
  - intros Hd Hc Hi. rewrite !bool_decide_eq_true_2 by done. cbn [rbind].
    destruct (index >? nsubfaults fg - 1) eqn:E; [done|lia].
  - intros Hd Hc Hi Hnone. rewrite !bool_decide_eq_true_2 by done.
    cbn [rbind]. destruct (index >? nsubfaults fg - 1) eqn:E; [lia|].
    cbn [rbind]. fold (subfault_key datatype component index).
    by rewrite Hnone.
  - intros Hi dt c. destruct (index >? nsubfaults fg - 1) eqn:E; [done|lia].
Qed.

Section Unconfigured.

Variable Patch : Type.
Variable patches : Source -> Z -> Z -> string -> result (list Patch).

(** X16.  In a geometry of at least one subfault in which nothing is
    stored for subfault 0 of a datatype and a component of the
    geometry, [get_all_patches] raises 'Requested subfault not
    defined!'; in a geometry without subfaults it returns the empty
    list. *)
Theorem get_all_patches_unconfigured (fg : FaultGeometry)
    (datatype component : string) :
  datatype ∈ datatypes fg -> component ∈ components fg ->
  (1 <= nsubfaults fg ->
     _ext_sources fg !! subfault_key datatype component 0 = None ->
     get_all_patches Patch patches fg (Some datatype) (Some component)
     = inl (FaultGeometryError RequestedSubfaultNotDefined)) /\
  (nsubfaults fg = 0 ->
     get_all_patches Patch patches fg (Some datatype) (Some component)
     = inr []).
Proof.
  intros Hd Hc. unfold get_all_patches, subfault_range.
  cbn [_assign_datatype _assign_component rbind]. split.
  - intros Hn Hnone.
    destruct (Z.to_nat (nsubfaults fg)) as [|n] eqn:E; [lia|].
    cbn [seq fmap list_fmap get_all_patches_loop].
    unfold get_subfault_patches, _check_index.
    change (Z.of_nat 0) with 0.
    destruct (0 >? nsubfaults fg - 1) eqn:E'; [lia|].
    cbn [_assign_datatype _assign_component rbind].
    unfold get_subfault. cbn [_assign_datatype _assign_component rbind].
    rewrite get_subfault_key_checked by (done || lia). cbn [rbind].
    by rewrite Hnone.
  - intros Hn. by rewrite Hn.
Qed.

End Unconfigured.

Lemma get_all_patches_unconfigured_witness :
  get_all_patches Source copies (geometry [3; 2] [2; 4] 5 5)
    (Some "geodetic") (Some "uparr")
  = inl (FaultGeometryError RequestedSubfaultNotDefined).
Proof.
  apply (get_all_patches_unconfigured Source copies
           (geometry [3; 2] [2; 4] 5 5) "geodetic" "uparr").
  - apply list_elem_of_here.
  - apply list_elem_of_here.
  - vm_compute. discriminate.
  - reflexivity.
Defined.
